(** * The now-playing poller of nowplaying-rekordbox-kari

    A shallow embedding of [poller.py]: the data-URI artwork encoder, the
    history query, the memoized change-detecting [poll], the single send of
    [_send_track_info] and the two trigger loops, followed by the properties
    of the specification that can be stated over them.

    Python strings are modelled as byte strings ([string]), file contents as
    [list byte], the database as tables of rows, the mutable poller object as an
    explicit state record that every call takes and returns, and the two
    [while True] loops as runs over a finite script of what the outside world
    presents at each iteration. *)

From Stdlib Require Import String Ascii List ZArith NArith Bool Arith Lia.
From Stdlib Require QArith.
From Stdlib.Strings Require Import Byte.
Import ListNotations.

Local Open Scope string_scope.

(** ** Python built-ins used by the source *)

Module Py.

(** [s.lstrip("/")]: every leading slash is dropped. *)
Fixpoint lstrip_slash (s : string) : string :=
  match s with
  | String c s' => if Ascii.eqb c "/" then lstrip_slash s' else s
  | EmptyString => EmptyString
  end.

(** [str.lower] on one character.  Only A-Z are mapped: no character outside
    ASCII lowers to one of the letters of [.jpg], [.jpeg] or [.png], so the
    suffix test of the source sees the same three cases. *)
Definition lower_ascii (c : ascii) : ascii :=
  let n := nat_of_ascii c in
  if (65 <=? n)%nat && (n <=? 90)%nat then ascii_of_nat (n + 32) else c.

Fixpoint lower (s : string) : string :=
  match s with
  | String c s' => String (lower_ascii c) (lower s')
  | EmptyString => EmptyString
  end.

(** Truth value of an [Optional[str]]: [None] and the empty string are false. *)
Definition truthy (o : option string) : bool :=
  match o with
  | Some (String _ _) => true
  | _ => false
  end.

(** The alphabet of [base64.b64encode]. *)
Definition b64_alphabet : string :=
  "ABCDEFGHIJKLMNOPQRSTUVWXYZabcdefghijklmnopqrstuvwxyz0123456789+/".

Definition b64_char (n : N) : ascii :=
  match String.get (N.to_nat (N.land n 63)) b64_alphabet with
  | Some c => c
  | None => "="%char
  end.

(** [base64.b64encode(data).decode("ascii")]: three bytes give four
    characters, a final group of one or two bytes is padded with [=]. *)
Fixpoint b64encode (data : list byte) : string :=
  match data with
  | [] => ""
  | [a] =>
      let n := N.shiftl (Byte.to_N a) 16 in
      String (b64_char (N.shiftr n 18))
        (String (b64_char (N.shiftr n 12)) "==")
  | [a; b] =>
      let n := N.lor (N.shiftl (Byte.to_N a) 16) (N.shiftl (Byte.to_N b) 8) in
      String (b64_char (N.shiftr n 18))
        (String (b64_char (N.shiftr n 12))
           (String (b64_char (N.shiftr n 6)) "="))
  | a :: b :: c :: rest =>
      let n := N.lor (N.lor (N.shiftl (Byte.to_N a) 16)
                            (N.shiftl (Byte.to_N b) 8)) (Byte.to_N c) in
      String (b64_char (N.shiftr n 18))
        (String (b64_char (N.shiftr n 12))
           (String (b64_char (N.shiftr n 6))
              (String (b64_char n) (b64encode rest))))
  end.

(** Zero-padded decimal fields of [strftime]. *)
Definition digit (n : nat) : ascii := ascii_of_nat (48 + n mod 10).

Definition pad2 (n : nat) : string :=
  String (digit (n / 10)) (String (digit n) "").

Definition pad4 (n : nat) : string :=
  String (digit (n / 1000)) (String (digit (n / 100)) (pad2 n)).

End Py.

(** ** Data model *)

(** [class SongInfo(BaseModel)]: four optional strings, all [None] by default. *)
Record SongInfo := mkSongInfo {
  artist : option string;
  title : option string;
  album : option string;
  artwork : option string
}.

(** [SongInfo()]: the snapshot with every field at its default. *)
Definition SongInfo_default : SongInfo := mkSongInfo None None None None.

(** ** The rekordbox database

    The tables of [pyrekordbox.db6] the poller touches, with the columns it
    reads.  [djmdContent], [djmdArtist] and [djmdAlbum] are looked up by
    primary key only, so they are modelled as finite functions from the key;
    [djmdSongHistory] is enumerated by the query and is a list of rows. *)

Module DjmdArtist.
Record t := mk { Name : option string }.
End DjmdArtist.

Module DjmdAlbum.
Record t := mk { Name : option string }.
End DjmdAlbum.

Module DjmdContent.
Record t := mk {
  Title : option string;
  ArtistID : option string;
  AlbumID : option string;
  ImagePath : option string
}.
End DjmdContent.

Module DjmdSongHistory.
Record t := mk {
  ID : string;
  ContentID : option string;
  created_at : Z
}.
End DjmdSongHistory.

Record Database := mkDatabase {
  djmdSongHistory : list DjmdSongHistory.t;
  djmdContent : string -> option DjmdContent.t;
  djmdArtist : string -> option DjmdArtist.t;
  djmdAlbum : string -> option DjmdAlbum.t
}.

(** What the database does when [poll] runs its query: the query raises, or it
    is answered from the tables. *)
Inductive DbState :=
| QueryRaises
| Serves (d : Database).

(** A [DjmdSongHistory] instance as the session hands it out: the row and the
    content its [Content] relationship loads, the content row whose [ID] is the
    row's [ContentID]. *)
Record History := mkHistory {
  row : DjmdSongHistory.t;
  Content : DjmdContent.t
}.

(** The [Artist] and [Album] relationships of a content row. *)
Definition Artist (d : Database) (c : DjmdContent.t) : option DjmdArtist.t :=
  match DjmdContent.ArtistID c with
  | Some i => djmdArtist d i
  | None => None
  end.

Definition Album (d : Database) (c : DjmdContent.t) : option DjmdAlbum.t :=
  match DjmdContent.AlbumID c with
  | Some i => djmdAlbum d i
  | None => None
  end.

(** ** The history query of [poll] *)

Module Query.

(** One row of the joined relation. *)
Definition Row : Type :=
  (DjmdSongHistory.t * DjmdContent.t * option DjmdArtist.t)%type.

(** [.join(DjmdContent, DjmdSongHistory.ContentID == DjmdContent.ID)]: an
    inner join, a history row without a content row drops out. *)
Definition join_content (d : Database) (h : DjmdSongHistory.t)
  : list (DjmdSongHistory.t * DjmdContent.t) :=
  match DjmdSongHistory.ContentID h with
  | Some cid =>
      match djmdContent d cid with
      | Some c => [(h, c)]
      | None => []
      end
  | None => []
  end.

(** [.outerjoin(DjmdArtist, DjmdContent.ArtistID == DjmdArtist.ID)]: every
    row is kept, with its artist or NULL. *)
Definition outerjoin_artist (d : Database)
    (hc : DjmdSongHistory.t * DjmdContent.t) : Row :=
  (fst hc, snd hc, Artist d (snd hc)).

(** [.where(DjmdContent.Title is not None)].  Python evaluates the argument
    before the call: [DjmdContent.Title] is the mapped column attribute of
    the class, an object that is not [None], so [is not] yields [True] and
    the clause the database receives is the constant true. *)
Definition Title_is_not_None : bool := true.

Definition where_clause (r : Row) : bool := Title_is_not_None.

Definition created_at (r : Row) : Z :=
  DjmdSongHistory.created_at (fst (fst r)).

(** [.order_by(DjmdSongHistory.created_at.desc())].  Rows of equal
    [created_at] come in an order the database chooses; the model keeps
    them in table order. *)
Fixpoint insert_desc (r : Row) (l : list Row) : list Row :=
  match l with
  | [] => [r]
  | r' :: l' =>
      if (created_at r' <=? created_at r)%Z then r :: l
      else r' :: insert_desc r l'
  end.

Definition order_by_created_at_desc (l : list Row) : list Row :=
  fold_right insert_desc [] l.

Definition joined (d : Database) : list Row :=
  map (outerjoin_artist d) (flat_map (join_content d) (djmdSongHistory d)).

(** The entity the query selects: [session.query(DjmdSongHistory)]. *)
Definition entity (r : Row) : History := mkHistory (fst (fst r)) (snd (fst r)).

(** The whole query, [.limit(1).all()] included. *)
Definition run (d : Database) : list History :=
  map entity
    (firstn 1 (order_by_created_at_desc (filter where_clause (joined d)))).

End Query.

(** ** The artwork files *)

(** Result of [Path.read_bytes]. *)
Inductive ReadResult :=
| OSError
| Bytes (data : list byte).

(** Result of [Path.is_file]: its answer, or the [OSError] of the [stat]
    underneath when that is not one of the errors [pathlib] takes for "no
    such file" (a name too long, a directory that may not be searched). *)
Inductive StatResult :=
| StatError
| Answer (b : bool).

(** What the source observes of [full_path]: [pathlib]'s [suffix] of it,
    whether it is a regular file, and what reading it gives. *)
Record Path := mkPath {
  suffix : string;
  is_file : StatResult;
  read_bytes : ReadResult
}.

(** How a call ends: it returns a value, or the [OSError] of [is_file]
    leaves it.  [is_file] is called outside the [try] of
    [_load_image_as_base64_data_uri], and nothing on the way up catches the
    exception. *)
Inductive Result (A : Type) :=
| Returns (a : A)
| RaisesOSError.

Arguments Returns {A} a.
Arguments RaisesOSError {A}.

(** The share directory at one moment: [self.share_dir / rel] for every
    relative path [rel]. *)
Definition ShareDir : Type := string -> Path.

(** The [match] on the lowered suffix. *)
Definition mimetype_of_suffix (s : string) : string :=
  if String.eqb s ".jpg" || String.eqb s ".jpeg" then "image/jpeg"
  else if String.eqb s ".png" then "image/png"
  else "image/*".

Definition _load_image_as_base64_data_uri (share_dir : ShareDir)
    (relative_path : string) : Result (option string) :=
  let full_path := share_dir (Py.lstrip_slash relative_path) in
  match is_file full_path with
  | StatError => RaisesOSError
  | Answer b =>
      if negb b then Returns None
      else
        match read_bytes full_path with
        | OSError => Returns None
        | Bytes image_data =>
            let b64 := Py.b64encode image_data in
            let mimetype := mimetype_of_suffix (Py.lower (suffix full_path)) in
            Returns (Some ("data:" ++ mimetype ++ ";base64," ++ b64))
        end
  end.

(** The guarded call in [poll]:
    [_load_image_as_base64_data_uri(content.ImagePath) if content.ImagePath else None]. *)
Definition artwork_data_uri (share_dir : ShareDir) (ImagePath : option string)
  : Result (option string) :=
  match ImagePath with
  | Some p =>
      if Py.truthy ImagePath then _load_image_as_base64_data_uri share_dir p
      else Returns None
  | None => Returns None
  end.

(** ** [functools.lru_cache(maxsize=100)]

    The cache of the decorated [poll], keyed by the call's arguments.  One
    poller object exists ([poller = RekordboxPoller()]), so the key is the
    [_cache_key] string.  Entries are kept most recently used first. *)

Module LruCache.

Section WithValue.

Variable V : Type.

Definition t : Type := list (string * V).

Definition maxsize : nat := 100.

Fixpoint get (k : string) (c : t) : option V :=
  match c with
  | [] => None
  | (k', v) :: c' => if String.eqb k k' then Some v else get k c'
  end.

Fixpoint remove (k : string) (c : t) : t :=
  match c with
  | [] => []
  | (k', v) :: c' => if String.eqb k k' then c' else (k', v) :: remove k c'
  end.

(** A hit moves the entry to the most recently used end. *)
Definition hit (k : string) (v : V) (c : t) : t := (k, v) :: remove k c.

(** A miss stores the new result; a full cache first drops its least
    recently used entry. *)
Definition store (k : string) (v : V) (c : t) : t :=
  (k, v) :: (if (maxsize <=? length c)%nat then removelast c else c).

Definition keys (c : t) : list string := map fst c.

End WithValue.

Arguments get {V} k c.
Arguments remove {V} k c.
Arguments hit {V} k v c : simpl never.
Arguments store {V} k v c : simpl never.
Arguments keys {V} c.

End LruCache.

(** ** The poller *)

(** The outside world at the moment of one [poll]. *)
Record World := mkWorld {
  db : DbState;
  share : ShareDir
}.

Record RekordboxPoller := mkPoller {
  _history : option (list History);
  poll_cache : LruCache.t (option SongInfo)
}.

(** [RekordboxPoller()]: nothing seen, nothing cached. *)
Definition RekordboxPoller_init : RekordboxPoller := mkPoller None [].

(** [==] on two [DjmdSongHistory] instances.  The mapped classes define no
    [__eq__], so this is object identity, and the session's identity map hands
    out one object per primary key: two instances are equal exactly when
    their rows have the same [ID]. *)
Definition History_eq (a b : History) : bool :=
  String.eqb (DjmdSongHistory.ID (row a)) (DjmdSongHistory.ID (row b)).

Fixpoint list_eq (a b : list History) : bool :=
  match a, b with
  | [], [] => true
  | x :: a', y :: b' => History_eq x y && list_eq a' b'
  | _, _ => false
  end.

(** [self._history == history]: [None] equals no list. *)
Definition history_eq (old : option (list History)) (history : list History)
  : bool :=
  match old with
  | Some l => list_eq l history
  | None => false
  end.

(** [getattr(content.Artist, "Name", None)] and the same for the album. *)
Definition artist_name (o : option DjmdArtist.t) : option string :=
  match o with
  | Some a => DjmdArtist.Name a
  | None => None
  end.

Definition album_name (o : option DjmdAlbum.t) : option string :=
  match o with
  | Some a => DjmdAlbum.Name a
  | None => None
  end.

(** The snapshot built from the last row of a query result; the artwork is
    computed first, and its exception ends the call. *)
Definition build_SongInfo (d : Database) (share_dir : ShareDir) (h : History)
  : Result SongInfo :=
  let content := Content h in
  match artwork_data_uri share_dir (DjmdContent.ImagePath content) with
  | Returns artwork_data_uri =>
      Returns
        (mkSongInfo
           (artist_name (Artist d content))
           (DjmdContent.Title content)
           (album_name (Album d content))
           artwork_data_uri)
  | RaisesOSError => RaisesOSError
  end.

(** What the body does once it holds a new [history]: [_history] is already
    set when the snapshot is built, so an exception of the artwork leaves
    the record marked as seen. *)
Definition snapshot_of (d : Database) (share_dir : ShareDir) (h : History)
  : Result (option SongInfo) :=
  match build_SongInfo d share_dir h with
  | Returns s => Returns (Some s)
  | RaisesOSError => RaisesOSError
  end.

(** The body of [poll], the function under the decorator. *)
Definition poll_body (w : World) (self : RekordboxPoller)
  : Result (option SongInfo) * RekordboxPoller :=
  match db w with
  | QueryRaises => (Returns (Some SongInfo_default), self)
  | Serves d =>
      let history := Query.run d in
      match history with
      | h0 :: rest =>
          if history_eq (_history self) history then (Returns None, self)
          else
            let self' := mkPoller (Some history) (poll_cache self) in
            (snapshot_of d (share w) (last rest h0), self')
      | [] => (Returns None, self)
      end
  end.

(** [poll] as callers see it: the cache in front of the body.  The cache
    keeps what the body returned; a call that ends in an exception stores
    nothing. *)
Definition poll (w : World) (self : RekordboxPoller) (_cache_key : string)
  : Result (option SongInfo) * RekordboxPoller :=
  match LruCache.get _cache_key (poll_cache self) with
  | Some result =>
      (Returns result,
       mkPoller (_history self)
                (LruCache.hit _cache_key result (poll_cache self)))
  | None =>
      match poll_body w self with
      | (Returns result, self') =>
          (Returns result,
           mkPoller (_history self')
                    (LruCache.store _cache_key result (poll_cache self')))
      | (RaisesOSError, self') => (RaisesOSError, self')
      end
  end.

(** A sequence of calls of [poll], each in the world of its moment, with the
    outcomes in call order; a caller that met an exception may call again. *)
Fixpoint polls (calls : list (World * string)) (self : RekordboxPoller)
  : list (Result (option SongInfo)) * RekordboxPoller :=
  match calls with
  | [] => ([], self)
  | (w, key) :: calls' =>
      let '(result, self') := poll w self key in
      let '(results, self'') := polls calls' self' in
      (result :: results, self'')
  end.

(** The same run, recording for every call whether the cache answered it. *)
Fixpoint polls_traced (calls : list (World * string)) (self : RekordboxPoller)
  : list (bool * Result (option SongInfo)) :=
  match calls with
  | [] => []
  | (w, key) :: calls' =>
      let cached :=
        match LruCache.get key (poll_cache self) with
        | Some _ => true
        | None => false
        end in
      (cached, fst (poll w self key)) :: polls_traced calls' (snd (poll w self key))
  end.

(** The primary keys of a query result. *)
Definition history_ids (l : list History) : list string :=
  map (fun h => DjmdSongHistory.ID (row h)) l.

(** The primary keys of the rows a world's query returns, when it returns. *)
Definition latest_ids (w : World) : option (list string) :=
  match db w with
  | QueryRaises => None
  | Serves d => Some (history_ids (Query.run d))
  end.

(** ** The broadcast side *)

(** [datetime.datetime], as [now(tz=utc)] returns it. *)
Record datetime := mkDatetime {
  year : nat;
  month : nat;
  day : nat;
  hour : nat;
  minute : nat;
  second : nat;
  microsecond : nat
}.

(** [.strftime("%Y-%m-%d %H:%M:%S")]. *)
Definition strftime (t : datetime) : string :=
  Py.pad4 (year t) ++ "-" ++ Py.pad2 (month t) ++ "-" ++ Py.pad2 (day t)
  ++ " " ++ Py.pad2 (hour t) ++ ":" ++ Py.pad2 (minute t) ++ ":"
  ++ Py.pad2 (second t).

(** Exceptions [websocket.send] can raise. *)
Inductive SendException :=
| ConnectionClosedOK
| ConnectionClosedError
| ConcurrencyError
| TypeError.

(** What the connection does with a [send]. *)
Inductive SendBehaviour :=
| Delivers
| Raises (e : SendException).

(** What the outside presents during one call of [_send_track_info]: the
    clock, the database and files, and the connection. *)
Record Moment := mkMoment {
  now : datetime;
  world : World;
  send : SendBehaviour
}.

(** Observable steps.  A sent message is [state.model_dump_json()]; the event
    carries the [state] it serializes. *)
Inductive Event :=
| Polled (cache_key : string) (state : option SongInfo)
| Sent (state : SongInfo)
| SendRaised (state : SongInfo) (e : SendException)
| Slept (interval : QArith_base.Q)
| GotKey (key : bool)
| PollRaised (cache_key : string).

(** How a coroutine call ends. *)
Inductive Outcome :=
| Returned
| Raised (e : SendException)
| RaisedOSError.

(** [except ConnectionClosedOK]. *)
Definition is_ConnectionClosedOK (e : SendException) : bool :=
  match e with
  | ConnectionClosedOK => true
  | _ => false
  end.

Definition _send_track_info (m : Moment) (poller : RekordboxPoller)
  : Outcome * RekordboxPoller * list Event :=
  let cache_key := strftime (now m) in
  match poll (world m) poller cache_key with
  | (Returns state, poller') =>
      match state with
      | Some s =>
          match send m with
          | Delivers => (Returned, poller', [Polled cache_key state; Sent s])
          | Raises e =>
              if is_ConnectionClosedOK e
              then (Returned, poller', [Polled cache_key state; SendRaised s e])
              else (Raised e, poller', [Polled cache_key state; SendRaised s e])
          end
      | None => (Returned, poller', [Polled cache_key state])
      end
  | (RaisesOSError, poller') => (RaisedOSError, poller', [PollRaised cache_key])
  end.

(** Where a [while True] loop stands once the script of the outside world is
    used up: still in the loop, awaiting, or left through an exception. *)
Inductive LoopState :=
| Awaiting
| Crashed (e : SendException)
| CrashedOSError.

(** [wait_for_hotkey]: one queue item per iteration, and the moment in which
    the cycle it triggers runs. *)
Fixpoint wait_for_hotkey (script : list (bool * Moment))
    (poller : RekordboxPoller) : LoopState * RekordboxPoller * list Event :=
  match script with
  | [] => (Awaiting, poller, [])
  | (key, m) :: script' =>
      if key then
        match _send_track_info m poller with
        | (Returned, poller', evs) =>
            let '(st, poller'', evs') := wait_for_hotkey script' poller' in
            (st, poller'', GotKey key :: (evs ++ evs')%list)
        | (Raised e, poller', evs) => (Crashed e, poller', GotKey key :: evs)
        | (RaisedOSError, poller', evs) =>
            (CrashedOSError, poller', GotKey key :: evs)
        end
      else
        let '(st, poller'', evs') := wait_for_hotkey script' poller in
        (st, poller'', GotKey key :: evs')
  end.

(** [wait_for_interval]: one moment per iteration.  The interval is only
    handed to [asyncio.sleep]. *)
Fixpoint wait_for_interval (interval : QArith_base.Q) (script : list Moment)
    (poller : RekordboxPoller) : LoopState * RekordboxPoller * list Event :=
  match script with
  | [] => (Awaiting, poller, [])
  | m :: script' =>
      match _send_track_info m poller with
      | (Returned, poller', evs) =>
          let '(st, poller'', evs') := wait_for_interval interval script' poller' in
          (st, poller'', (evs ++ Slept interval :: evs')%list)
      | (Raised e, poller', evs) => (Crashed e, poller', evs)
      | (RaisedOSError, poller', evs) => (CrashedOSError, poller', evs)
      end
  end.

(** The kind of an event, for statements about the order of steps. *)
Inductive Kind := KPoll | KSend | KSleep | KKey.

Definition kind (e : Event) : Kind :=
  match e with
  | Polled _ _ | PollRaised _ => KPoll
  | Sent _ | SendRaised _ _ => KSend
  | Slept _ => KSleep
  | GotKey _ => KKey
  end.

Definition is_send (e : Event) : bool :=
  match e with
  | Sent _ | SendRaised _ _ => true
  | _ => false
  end.

(** ** The hotkey queue and the choice of the handler *)

(** [on_activate] of [setup_keyboard_listening]: the listener thread has
    the event loop run [queue.put_nowait(True)].  The queue is an unbounded
    [asyncio.Queue], first in first out; it is modelled by the list of its
    items, oldest first. *)
Definition on_activate (queue : list bool) : list bool := (queue ++ [true])%list.

(** [n] presses of the hotkey on an empty queue. *)
Definition activations (n : nat) : list bool := Nat.iter n on_activate [].

(** What the handler of one connection meets: the items its
    [key_queue.get()] calls return, each with the moment of the cycle it
    triggers, and the moments of a timer-driven loop's iterations. *)
Record Connection := mkConnection {
  key_items : list (bool * Moment);
  ticks : list Moment
}.

(** [ws_handler] as [main] builds it: [partial(wait_for_hotkey, ...)] in
    hotkey mode, [partial(wait_for_interval, interval=interval)] otherwise. *)
Definition ws_handler (hotkey_mode : bool) (interval : QArith_base.Q)
    (c : Connection) (poller : RekordboxPoller)
  : LoopState * RekordboxPoller * list Event :=
  if hotkey_mode then wait_for_hotkey (key_items c) poller
  else wait_for_interval interval (ticks c) poller.

(** ** Notions used in the statements *)

(** The poller has seen the rows with primary keys [ids], or there are none. *)
Definition seen (ids : list string) (p : RekordboxPoller) : Prop :=
  ids = [] \/ exists l, _history p = Some l /\ history_ids l = ids.

(** The entry of [k], with result [r], is in the cache, and the entries in
    front of it have distinct keys taken from [A]. *)
Definition holds {V : Type} (k : string) (r : V) (A : list string)
    (c : LruCache.t V) : Prop :=
  exists pre post,
    c = (pre ++ (k, r) :: post)%list /\
    NoDup (LruCache.keys pre) /\
    ~ In k (LruCache.keys pre) /\
    incl (LruCache.keys pre) A.




(** The first row of a list is one of the latest. *)
Definition latest_first (l : list Query.Row) : Prop :=
  match l with
  | [] => True
  | x :: _ => Forall (fun y => (Query.created_at y <= Query.created_at x)%Z) l
  end.

(** The call of [poll] a moment's cycle makes. *)
Definition call_of (m : Moment) : World * string := (world m, strftime (now m)).

(** The outcomes of the polls in a list of events, and the snapshots the
    sends were called with, in order. *)
Fixpoint polled_states (evs : list Event) : list (Result (option SongInfo)) :=
  match evs with
  | [] => []
  | Polled _ st :: evs' => Returns st :: polled_states evs'
  | PollRaised _ :: evs' => RaisesOSError :: polled_states evs'
  | _ :: evs' => polled_states evs'
  end.

Fixpoint send_payloads (evs : list Event) : list SongInfo :=
  match evs with
  | [] => []
  | Sent s :: evs' => s :: send_payloads evs'
  | SendRaised s _ :: evs' => s :: send_payloads evs'
  | _ :: evs' => send_payloads evs'
  end.

(** The snapshots among the outcomes of polls. *)
Fixpoint somes {A : Type} (l : list (Result (option A))) : list A :=
  match l with
  | [] => []
  | Returns (Some a) :: l' => a :: somes l'
  | _ :: l' => somes l'
  end.

(** The keys of the calls that returned, in call order: those the cache
    was asked to keep. *)
Fixpoint returned_keys {A : Type} (keys : list string) (outcomes : list (Result A))
  : list string :=
  match keys, outcomes with
  | k :: keys', Returns _ :: outcomes' => k :: returned_keys keys' outcomes'
  | _ :: keys', RaisesOSError :: outcomes' => returned_keys keys' outcomes'
  | _, _ => []
  end.

(** Every path under the share directory can be examined: [is_file]
    answers. *)
Definition examinable (w : World) : Prop :=
  forall rel, is_file (share w rel) <> StatError.

(** The moments of the cycles a hotkey script triggers: those of its true
    items. *)
Fixpoint triggered (script : list (bool * Moment)) : list Moment :=
  match script with
  | [] => []
  | (key, m) :: script' => if key then m :: triggered script' else triggered script'
  end.

(** Keys in order of last use, most recent first, each once. *)
Fixpoint remove_key (k : string) (l : list string) : list string :=
  match l with
  | [] => []
  | k' :: l' => if String.eqb k k' then l' else k' :: remove_key k l'
  end.

Definition touch (l : list string) (k : string) : list string :=
  k :: remove_key k l.

Definition recency (accesses : list string) : list string :=
  fold_left touch accesses [].

(** For every key of [K] the cache holds nothing or the result [v]. *)
Definition answers (K : list string) (v : option SongInfo)
    (c : LruCache.t (option SongInfo)) : Prop :=
  forall k, In k K -> LruCache.get k c = None \/ LruCache.get k c = Some v.

(** A result [poll] can give in a run of [calls]: nothing, the empty
    snapshot of a call whose query raised, or the snapshot of a row the query
    of a call returned, built in the world of that call. *)
Definition produced (calls : list (World * string)) (r : option SongInfo) : Prop :=
  r = None \/
  exists w k,
    In (w, k) calls /\
    ((db w = QueryRaises /\ r = Some SongInfo_default) \/
     exists d h s,
       db w = Serves d /\ In h (Query.run d) /\
       build_SongInfo d (share w) h = Returns s /\ r = Some s).

(** A string of [n] slashes. *)
Definition slashes (n : nat) : string := string_of_list_ascii (repeat "/"%char n).

(** Reading base64 back, to state that the encoding loses nothing: the
    position of a character in the alphabet, a byte from its eight bits,
    and the bytes of a text, group by group. *)
Fixpoint index_from (c : ascii) (s : string) (i : N) : N :=
  match s with
  | String c' s' => if Ascii.eqb c c' then i else index_from c s' (N.succ i)
  | EmptyString => 0%N
  end.

Definition b64_index (c : ascii) : N := index_from c Py.b64_alphabet 0.

Definition byte_of_N (n : N) : byte :=
  match Byte.of_N (N.land n 255) with
  | Some b => b
  | None => x00
  end.

Definition decode_first (c1 c2 : ascii) : byte :=
  byte_of_N (N.lor (N.shiftl (b64_index c1) 2) (N.shiftr (b64_index c2) 4)).

Definition decode_second (c2 c3 : ascii) : byte :=
  byte_of_N (N.lor (N.shiftl (N.land (b64_index c2) 15) 4)
                   (N.shiftr (b64_index c3) 2)).

Definition decode_third (c3 c4 : ascii) : byte :=
  byte_of_N (N.lor (N.shiftl (N.land (b64_index c3) 3) 6) (b64_index c4)).

Fixpoint b64decode (s : string) : list byte :=
  match s with
  | String c1 (String c2 (String c3 (String c4 rest))) =>
      if Ascii.eqb c3 "=" then [decode_first c1 c2]
      else if Ascii.eqb c4 "=" then [decode_first c1 c2; decode_second c2 c3]
      else decode_first c1 c2 :: decode_second c2 c3 :: decode_third c3 c4
             :: b64decode rest
  | _ => []
  end.

(** ** Concrete databases, files and moments

    The store of the specification's end-to-end example and a few variations,
    used to evaluate the definitions above. *)

Module Fixture.

(** A primary-key table from its rows. *)
Fixpoint table {A : Type} (rows : list (string * A)) (k : string) : option A :=
  match rows with
  | [] => None
  | (k', a) :: rows' => if String.eqb k k' then Some a else table rows' k
  end.

Definition song_a : DjmdContent.t :=
  DjmdContent.mk (Some "Song A") (Some "a1") None None.

Definition song_b : DjmdContent.t :=
  DjmdContent.mk (Some "Song B") None (Some "al1") (Some "missing.png").

Definition song_c : DjmdContent.t :=
  DjmdContent.mk (Some "Song C") (Some "a1") (Some "al1")
    (Some "/PIONEER/Artwork/cover.JPG").

(** A content row whose [Title] is NULL. *)
Definition untitled : DjmdContent.t :=
  DjmdContent.mk None (Some "a1") None None.

Definition contents : string -> option DjmdContent.t :=
  table [("c1", song_a); ("c2", song_b); ("c3", song_c); ("c4", untitled)].

Definition artists : string -> option DjmdArtist.t :=
  table [("a1", DjmdArtist.mk (Some "Artist A"))].

Definition albums : string -> option DjmdAlbum.t :=
  table [("al1", DjmdAlbum.mk (Some "Album B"))].

Definition play (id content : string) (at_ : Z) : DjmdSongHistory.t :=
  DjmdSongHistory.mk id (Some content) at_.

Definition store (history : list DjmdSongHistory.t) : Database :=
  mkDatabase history contents artists albums.

(** No history at all; Song A played; then Song B; Song A played again. *)
Definition empty_store : Database := store [].
Definition store_a : Database := store [play "1" "c1" 10].
Definition store_ab : Database := store [play "1" "c1" 10; play "2" "c2" 20].
Definition store_aa : Database := store [play "1" "c1" 10; play "3" "c1" 30].
Definition store_c : Database := store [play "4" "c3" 40; play "1" "c1" 10].
Definition store_untitled : Database :=
  store [play "1" "c1" 10; play "5" "c4" 50].

(** A share directory without files, and one with a single cover. *)
Definition no_files : ShareDir := fun _ => mkPath "" (Answer false) OSError.

Definition cover_bytes : list byte := [xff; xd8; xff; xe0].

Definition one_cover : ShareDir :=
  fun rel =>
    if String.eqb rel "PIONEER/Artwork/cover.JPG"
    then mkPath ".JPG" (Answer true) (Bytes cover_bytes)
    else mkPath "" (Answer false) OSError.

(** A cover that exists but cannot be read. *)
Definition locked_cover : ShareDir :=
  fun rel =>
    if String.eqb rel "PIONEER/Artwork/cover.JPG"
    then mkPath ".JPG" (Answer true) OSError
    else mkPath "" (Answer false) OSError.

(** A cover whose path cannot be examined: [is_file] raises. *)
Definition hidden_cover : ShareDir :=
  fun rel =>
    if String.eqb rel "PIONEER/Artwork/cover.JPG"
    then mkPath ".JPG" StatError OSError
    else mkPath "" (Answer false) OSError.

Definition serving (d : Database) : World := mkWorld (Serves d) no_files.
Definition failing : World := mkWorld QueryRaises no_files.

Definition at_second (s : nat) : datetime := mkDatetime 2024 5 17 21 30 s 0.

Definition key (s : nat) : string := strftime (at_second s).

(** 120 successive seconds. *)
Definition many_keys : list string := map key (seq 0 120).

(** The poller after it has seen Song A in second 0. *)
Definition seen_a : RekordboxPoller :=
  snd (poll (serving store_a) RekordboxPoller_init (key 0)).

(** Song A is playing and the peer has closed the connection: normally, and
    with an error. *)
Definition closed_ok : Moment :=
  mkMoment (at_second 0) (serving store_a) (Raises ConnectionClosedOK).

Definition closed_error : Moment :=
  mkMoment (at_second 0) (serving store_a) (Raises ConnectionClosedError).

Definition next_track : Moment :=
  mkMoment (at_second 5) (serving store_ab) Delivers.

(** Song A still the latest record, the database down, at a given second. *)
Definition still_a (s : nat) : Moment :=
  mkMoment (at_second s) (serving store_a) Delivers.

Definition down (s : nat) : Moment :=
  mkMoment (at_second s) failing Delivers.

(** The poller after the cycle whose send met the normal close, and a
    connection accepted afterwards. *)
Definition after_lost_send : RekordboxPoller :=
  snd (fst (_send_track_info closed_ok RekordboxPoller_init)).

Definition new_connection : Connection :=
  mkConnection [(true, still_a 3); (false, still_a 4); (true, still_a 9)]
               [still_a 3; still_a 6; still_a 9].

End Fixture.

(** * Properties *)

(** ** Sanity checks of the Python built-ins *)

Example b64encode_Man : Py.b64encode [x4d; x61; x6e] = "TWFu".
Proof. reflexivity. Qed.

Example b64encode_padding :
  Py.b64encode [x4d; x61] = "TWE=" /\ Py.b64encode [x4d] = "TQ==".
Proof. split; reflexivity. Qed.

Example lower_suffix : Py.lower ".JPeG" = ".jpeg".
Proof. reflexivity. Qed.

Example strftime_example :
  strftime (mkDatetime 2024 5 17 21 30 3 4999) = "2024-05-17 21:30:03".
Proof. reflexivity. Qed.

(** The end-to-end example of the specification: Song A, the same row again,
    then Song B with a missing artwork file. *)
Example end_to_end :
  fst (polls [(Fixture.serving Fixture.store_a, Fixture.key 0);
              (Fixture.serving Fixture.store_a, Fixture.key 3);
              (Fixture.serving Fixture.store_ab, Fixture.key 6)]
         RekordboxPoller_init)
  = [Returns (Some (mkSongInfo (Some "Artist A") (Some "Song A") None None));
     Returns None;
     Returns (Some (mkSongInfo None (Some "Song B") (Some "Album B") None))].
Proof. reflexivity. Qed.

Example snapshot_with_cover :
  fst (poll (mkWorld (Serves Fixture.store_c) Fixture.one_cover)
         RekordboxPoller_init (Fixture.key 0))
  = Returns (Some (mkSongInfo (Some "Artist A") (Some "Song C") (Some "Album B")
                     (Some "data:image/jpeg;base64,/9j/4A=="))).
Proof. reflexivity. Qed.

(** ** The cache *)

Section CacheFacts.

Context {V : Type}.
Implicit Types (c : LruCache.t V) (k : string) (v : V).

Lemma get_removelast_None k c :
  LruCache.get k c = None -> LruCache.get k (removelast c) = None.
Proof.
  induction c as [|[k' v'] c IH]; simpl; [easy|].
  destruct (String.eqb k k') eqn:E; [discriminate|].
  intros H. destruct c as [|e c']; [reflexivity|].
  change (removelast ((k', v') :: e :: c'))
    with ((k', v') :: removelast (e :: c')).
  simpl LruCache.get at 1. rewrite E. now apply IH.
Qed.

Lemma get_store_same k v c : LruCache.get k (LruCache.store k v c) = Some v.
Proof. unfold LruCache.store. cbn [LruCache.get]. now rewrite String.eqb_refl. Qed.

Lemma get_hit_same k v c : LruCache.get k (LruCache.hit k v c) = Some v.
Proof. unfold LruCache.hit. cbn [LruCache.get]. now rewrite String.eqb_refl. Qed.

Lemma get_store_None k k' v c :
  k <> k' -> LruCache.get k c = None ->
  LruCache.get k (LruCache.store k' v c) = None.
Proof.
  intros Hk H. unfold LruCache.store.
  cbn [LruCache.get]. apply String.eqb_neq in Hk. rewrite Hk.
  destruct (LruCache.maxsize <=? length c)%nat; [|assumption].
  now apply get_removelast_None.
Qed.

Lemma get_In_keys k c :
  LruCache.get k c = None <-> ~ In k (LruCache.keys c).
Proof.
  induction c as [|[k' v'] c IH]; simpl.
  - split; [intros _ []|reflexivity].
  - destruct (String.eqb_spec k k') as [->|N].
    + split; [discriminate|]. intros H. exfalso. apply H. now left.
    + rewrite IH. split.
      * intros H [E|I]; [now apply N|now apply H].
      * intros H I. apply H. now right.
Qed.

End CacheFacts.

(** ** [poll] and its body *)

Lemma poll_body_cache w p : poll_cache (snd (poll_body w p)) = poll_cache p.
Proof.
  unfold poll_body. destruct (db w) as [|d]; [reflexivity|].
  destruct (Query.run d) as [|h0 rest]; [reflexivity|].
  now destruct (history_eq (_history p) (h0 :: rest)).
Qed.

Lemma poll_hit w p k r :
  LruCache.get k (poll_cache p) = Some r ->
  poll w p k
  = (Returns r, mkPoller (_history p) (LruCache.hit k r (poll_cache p))).
Proof. intros H. unfold poll. now rewrite H. Qed.

(** A call the cache does not answer runs the body; what the body returns is
    stored, its exception is passed on and nothing is stored. *)
Lemma poll_miss w p k :
  LruCache.get k (poll_cache p) = None ->
  poll w p k =
    match fst (poll_body w p) with
    | Returns r =>
        (Returns r,
         mkPoller (_history (snd (poll_body w p)))
                  (LruCache.store k r (poll_cache p)))
    | RaisesOSError => (RaisesOSError, snd (poll_body w p))
    end.
Proof.
  intros H. unfold poll. rewrite H.
  pose proof (poll_body_cache w p) as C.
  destruct (poll_body w p) as [[r|] p']; cbn [fst snd] in *; [|reflexivity].
  now rewrite C.
Qed.

Lemma poll_body_raises w p :
  db w = QueryRaises -> poll_body w p = (Returns (Some SongInfo_default), p).
Proof. intros H. unfold poll_body. now rewrite H. Qed.

Lemma poll_body_no_record w d p :
  db w = Serves d -> Query.run d = [] -> poll_body w p = (Returns None, p).
Proof. intros H E. unfold poll_body. now rewrite H, E. Qed.

(** Where every path can be examined, building a snapshot returns. *)
Lemma artwork_data_uri_returns share_dir ref :
  (forall rel, is_file (share_dir rel) <> StatError) ->
  exists a, artwork_data_uri share_dir ref = Returns a.
Proof.
  intros H. unfold artwork_data_uri. destruct ref as [p|]; [|now eexists].
  destruct (Py.truthy (Some p)); [|now eexists].
  unfold _load_image_as_base64_data_uri.
  specialize (H (Py.lstrip_slash p)).
  destruct (is_file (share_dir (Py.lstrip_slash p))) as [|b]; [contradiction|].
  destruct (negb b); [now eexists|].
  destruct (read_bytes (share_dir (Py.lstrip_slash p))); now eexists.
Qed.

Lemma snapshot_of_returns w d h :
  examinable w -> exists s, snapshot_of d (share w) h = Returns (Some s).
Proof.
  intros H. unfold snapshot_of, build_SongInfo.
  destruct (artwork_data_uri_returns (share w)
              (DjmdContent.ImagePath (Content h)) H) as [a ->].
  now eexists.
Qed.

Lemma poll_body_returns w p :
  examinable w -> exists r, fst (poll_body w p) = Returns r.
Proof.
  intros H. unfold poll_body. destruct (db w) as [|d]; [now eexists|].
  destruct (Query.run d) as [|h0 rest]; [now eexists|].
  destruct (history_eq (_history p) (h0 :: rest)); [now eexists|].
  destruct (snapshot_of_returns w d (last rest h0) H) as [s ->]. now eexists.
Qed.

Lemma poll_returns w p k :
  examinable w -> exists r, fst (poll w p k) = Returns r.
Proof.
  intros H. destruct (LruCache.get k (poll_cache p)) as [r|] eqn:G.
  - rewrite (poll_hit _ _ _ _ G). now eexists.
  - rewrite (poll_miss _ _ _ G).
    destruct (poll_body_returns w p H) as [r ->]. now eexists.
Qed.

(** A store without history rows answers the query with no record. *)
Lemma Query_run_no_history d : djmdSongHistory d = [] -> Query.run d = [].
Proof. intros H. unfold Query.run, Query.joined. now rewrite H. Qed.

(** C2: a poll whose store query raises returns the default snapshot, all
    four fields absent: a value, not an exception and not [None].  The query
    is issued when the cache does not hold the call's key. *)
Theorem poll_query_failure_gives_empty_snapshot :
  forall (w : World) (p : RekordboxPoller) (k : string),
    db w = QueryRaises ->
    LruCache.get k (poll_cache p) = None ->
    exists s : SongInfo,
      fst (poll w p k) = Returns (Some s) /\
      artist s = None /\ title s = None /\ album s = None /\ artwork s = None.
Proof.
  intros w p k Hdb Hmiss. exists SongInfo_default.
  rewrite (poll_miss _ _ _ Hmiss), (poll_body_raises _ _ Hdb). simpl.
  repeat split.
Qed.

Lemma poll_query_failure_gives_empty_snapshot_witness :
  exists s : SongInfo,
    fst (poll Fixture.failing RekordboxPoller_init (Fixture.key 0))
    = Returns (Some s) /\
    artist s = None /\ title s = None /\ album s = None /\ artwork s = None.
Proof.
  apply poll_query_failure_gives_empty_snapshot; reflexivity.
Defined.

(** C9: a poll whose query raises leaves [_history] as it was, and the next
    poll that runs its query successfully is decided by comparing the fetched
    rows with that earlier [_history]. *)
Theorem poll_query_failure_keeps_history :
  forall (w : World) (p : RekordboxPoller) (k : string),
    db w = QueryRaises ->
    LruCache.get k (poll_cache p) = None ->
    let p' := snd (poll w p k) in
    fst (poll w p k) = Returns (Some SongInfo_default) /\
    _history p' = _history p /\
    forall (w2 : World) (d2 : Database) (k2 : string),
      db w2 = Serves d2 ->
      LruCache.get k2 (poll_cache p') = None ->
      fst (poll w2 p' k2) =
        match Query.run d2 with
        | [] => Returns None
        | h0 :: rest =>
            if history_eq (_history p) (h0 :: rest) then Returns None
            else
              match build_SongInfo d2 (share w2) (last rest h0) with
              | Returns s => Returns (Some s)
              | RaisesOSError => RaisesOSError
              end
        end.
Proof.
  intros w p k Hdb Hmiss p'. subst p'.
  rewrite (poll_miss _ _ _ Hmiss), (poll_body_raises _ _ Hdb).
  cbn [fst snd _history poll_cache]. repeat split.
  intros w2 d2 k2 Hdb2 Hmiss2.
  rewrite poll_miss by exact Hmiss2. unfold poll_body.
  cbn [fst snd _history poll_cache]. rewrite Hdb2.
  destruct (Query.run d2) as [|h0 rest]; [reflexivity|].
  destruct (history_eq (_history p) (h0 :: rest)); [reflexivity|].
  cbn [fst snd]. unfold snapshot_of.
  now destruct (build_SongInfo d2 (share w2) (last rest h0)).
Qed.

Lemma poll_query_failure_keeps_history_witness :
  _history (snd (poll Fixture.failing Fixture.seen_a (Fixture.key 1)))
    = _history Fixture.seen_a /\
  fst (poll (Fixture.serving Fixture.store_a)
         (snd (poll Fixture.failing Fixture.seen_a (Fixture.key 1)))
         (Fixture.key 2)) = Returns None.
Proof.
  destruct (poll_query_failure_keeps_history Fixture.failing Fixture.seen_a
              (Fixture.key 1) eq_refl eq_refl) as (_ & Hh & Hnext).
  split; [exact Hh|].
  exact (Hnext (Fixture.serving Fixture.store_a) Fixture.store_a
               (Fixture.key 2) eq_refl eq_refl).
Defined.

(** ** The empty store *)

Lemma latest_ids_no_record w :
  latest_ids w = Some [] -> exists d, db w = Serves d /\ Query.run d = [].
Proof.
  unfold latest_ids. destruct (db w) as [|d]; [discriminate|].
  intros H. exists d. split; [reflexivity|].
  destruct (Query.run d); [reflexivity|discriminate].
Qed.

Section AbsentCache.

Let absent (e : string * option SongInfo) : Prop := snd e = None.

Lemma absent_get k c r :
  Forall absent c -> LruCache.get k c = Some r -> r = None.
Proof.
  induction 1 as [|[k' v] c Hv _ IH]; simpl; [discriminate|].
  destruct (String.eqb k k'); [|exact IH].
  intros [= <-]. exact Hv.
Qed.

Lemma absent_remove k c : Forall absent c -> Forall absent (LruCache.remove k c).
Proof.
  induction 1 as [|[k' v] c Hv Hc IH]; simpl; [constructor|].
  destruct (String.eqb k k'); [assumption|now constructor].
Qed.

Lemma absent_removelast c : Forall absent c -> Forall absent (removelast c).
Proof.
  intros H. apply Forall_forall. intros e He.
  rewrite Forall_forall in H. apply H.
  destruct c as [|e0 c]; [destruct He|].
  rewrite (app_removelast_last e0 (l := e0 :: c)) by discriminate.
  apply in_or_app. now left.
Qed.

Lemma absent_poll w p k :
  latest_ids w = Some [] ->
  Forall absent (poll_cache p) ->
  fst (poll w p k) = Returns None /\
  Forall absent (poll_cache (snd (poll w p k))).
Proof.
  intros Hw Hc. destruct (latest_ids_no_record _ Hw) as (d & Hd & Hq).
  destruct (LruCache.get k (poll_cache p)) as [r|] eqn:G.
  - rewrite (poll_hit _ _ _ _ G). cbn [fst snd poll_cache].
    pose proof (absent_get _ _ _ Hc G) as ->. split; [reflexivity|].
    unfold LruCache.hit. constructor; [reflexivity|now apply absent_remove].
  - rewrite (poll_miss _ _ _ G), (poll_body_no_record _ _ _ Hd Hq).
    cbn [fst snd poll_cache]. split; [reflexivity|].
    unfold LruCache.store. constructor; [reflexivity|].
    destruct (LruCache.maxsize <=? length (poll_cache p))%nat;
      [now apply absent_removelast|assumption].
Qed.

End AbsentCache.

(** C5 does not hold as it is written: in the second in which a query
    failed, a poll that meets the empty store gets the cached empty snapshot
    of the failure. *)
Lemma poll_empty_store_returns_cached_failure :
  latest_ids (Fixture.serving Fixture.empty_store) = Some [] /\
  fst (polls [(Fixture.failing, "2024-05-17 21:30:00");
              (Fixture.serving Fixture.empty_store, "2024-05-17 21:30:00")]
         RekordboxPoller_init)
  = [Returns (Some (mkSongInfo None None None None));
     Returns (Some (mkSongInfo None None None None))].
Proof. split; reflexivity. Qed.

(** C5, amended: against an empty store a poll that runs its query returns
    [None], never a snapshot, and leaves the poller's [_history] alone; and
    in a run of polls that all meet an empty store, from a poller whose
    cache holds no snapshot (the new poller is one), every result is [None],
    the cached ones included.  (A poll whose key the cache holds returns the
    cached result instead.) *)
Theorem poll_empty_store_absent :
  (forall (w : World) (p : RekordboxPoller) (k : string),
      latest_ids w = Some [] ->
      LruCache.get k (poll_cache p) = None ->
      fst (poll w p k) = Returns None /\
      _history (snd (poll w p k)) = _history p) /\
  (forall (calls : list (World * string)) (p : RekordboxPoller),
      Forall (fun c => latest_ids (fst c) = Some []) calls ->
      Forall (fun e => snd e = None) (poll_cache p) ->
      Forall (fun r => r = Returns None) (fst (polls calls p))).
Proof.
  split.
  - intros w p k Hw G. destruct (latest_ids_no_record _ Hw) as (d & Hd & Hq).
    rewrite (poll_miss _ _ _ G), (poll_body_no_record _ _ _ Hd Hq).
    now split.
  - induction calls as [|[w k] calls IH]; intros p Hcalls Hc.
    + constructor.
    + inversion Hcalls as [|? ? Hw Hrest]; subst. cbn [fst] in Hw.
      destruct (absent_poll w p k Hw Hc) as [Hr Hc'].
      cbn [polls]. destruct (poll w p k) as [r p'] eqn:E.
      cbn [fst snd] in Hr, Hc'. specialize (IH p' Hrest Hc').
      destruct (polls calls p') as [rs p'']. cbn [fst] in *.
      now constructor.
Qed.

Lemma poll_empty_store_absent_witness :
  Forall (fun r => r = Returns None)
    (fst (polls [(Fixture.serving Fixture.empty_store, Fixture.key 0);
                 (Fixture.serving Fixture.empty_store, Fixture.key 0);
                 (Fixture.serving Fixture.empty_store, Fixture.key 1)]
            RekordboxPoller_init)) /\
  fst (poll (Fixture.serving Fixture.empty_store) RekordboxPoller_init
         (Fixture.key 0)) = Returns None.
Proof.
  split.
  - apply (proj2 poll_empty_store_absent); repeat constructor.
  - apply (proj1 poll_empty_store_absent); reflexivity.
Defined.

(** ** The artwork encoder *)

Lemma mimetype_cases s :
  (s = ".jpg" \/ s = ".jpeg" -> mimetype_of_suffix s = "image/jpeg") /\
  (s = ".png" -> mimetype_of_suffix s = "image/png") /\
  (s <> ".jpg" -> s <> ".jpeg" -> s <> ".png" -> mimetype_of_suffix s = "image/*").
Proof.
  unfold mimetype_of_suffix. repeat split.
  - intros [-> | ->]; reflexivity.
  - intros ->; reflexivity.
  - intros H1 H2 H3.
    apply String.eqb_neq in H1, H2, H3. now rewrite H1, H2, H3.
Qed.

(** C6, at the input where the code departs from it: the path of the
    artwork cannot be examined, so that [is_file], which is called outside
    the [try], raises.  The encoder does not return: the exception leaves
    [poll] after [_history] was set and nothing is cached, and the next poll,
    finding the record already seen, returns [None], also once the file can
    be read.  The snapshot of that record is never produced. *)
Theorem artwork_stat_error_fails_the_poll :
  artwork_data_uri Fixture.hidden_cover (Some "/PIONEER/Artwork/cover.JPG")
  = RaisesOSError /\
  poll (mkWorld (Serves Fixture.store_c) Fixture.hidden_cover)
    RekordboxPoller_init "2024-05-17 21:30:00"
  = (RaisesOSError,
     mkPoller (Some [mkHistory (Fixture.play "4" "c3" 40) Fixture.song_c]) []) /\
  fst (polls [(mkWorld (Serves Fixture.store_c) Fixture.hidden_cover,
               "2024-05-17 21:30:00");
              (mkWorld (Serves Fixture.store_c) Fixture.hidden_cover,
               "2024-05-17 21:30:03");
              (mkWorld (Serves Fixture.store_c) Fixture.one_cover,
               "2024-05-17 21:30:06")]
         RekordboxPoller_init)
  = [RaisesOSError; Returns None; Returns None].
Proof. repeat split. Qed.

(** X14.  The artwork encoder, where [is_file] answers.  An absent reference
    gives no artwork; so does a path that [is_file] says is no file, or
    whose read raises [OSError], and a poll that detects such a record still
    returns its snapshot, artist, title and album filled from the metadata.
    A readable file gives [data:<mime>;base64,<payload>] with the MIME type
    chosen by the lowered suffix and the payload the base64 of the file's
    bytes.  Where [is_file] itself raises, the encoder raises. *)
Theorem artwork_encoder_contract :
  forall (share_dir : ShareDir),
    artwork_data_uri share_dir None = Returns None /\
    (forall (ref : string) (b : bool),
        let full_path := share_dir (Py.lstrip_slash ref) in
        is_file full_path = Answer b ->
        b = false \/ read_bytes full_path = OSError ->
        artwork_data_uri share_dir (Some ref) = Returns None) /\
    (forall (ref : string) (data : list byte),
        let full_path := share_dir (Py.lstrip_slash ref) in
        ref <> "" ->
        is_file full_path = Answer true ->
        read_bytes full_path = Bytes data ->
        exists mime : string,
          artwork_data_uri share_dir (Some ref)
            = Returns (Some ("data:" ++ mime ++ ";base64," ++ Py.b64encode data)) /\
          let ext := Py.lower (suffix full_path) in
          (ext = ".jpg" \/ ext = ".jpeg" -> mime = "image/jpeg") /\
          (ext = ".png" -> mime = "image/png") /\
          (ext <> ".jpg" -> ext <> ".jpeg" -> ext <> ".png" -> mime = "image/*")) /\
    (forall (ref : string),
        ref <> "" ->
        is_file (share_dir (Py.lstrip_slash ref)) = StatError ->
        artwork_data_uri share_dir (Some ref) = RaisesOSError) /\
    (forall (w : World) (d : Database) (p : RekordboxPoller) (k : string)
            (h : History),
        share w = share_dir ->
        db w = Serves d ->
        Query.run d = [h] ->
        history_eq (_history p) [h] = false ->
        LruCache.get k (poll_cache p) = None ->
        artwork_data_uri share_dir (DjmdContent.ImagePath (Content h))
        = Returns None ->
        fst (poll w p k) =
          Returns (Some (mkSongInfo (artist_name (Artist d (Content h)))
                                    (DjmdContent.Title (Content h))
                                    (album_name (Album d (Content h)))
                                    None))).
Proof.
  intros share_dir. split; [reflexivity|]. split; [|split; [|split]].
  - intros ref b full_path Hf H. unfold artwork_data_uri.
    destruct (Py.truthy (Some ref)); [|reflexivity].
    unfold _load_image_as_base64_data_uri. fold full_path. rewrite Hf.
    destruct H as [->|H]; [reflexivity|]. rewrite H. now destruct (negb b).
  - intros ref data full_path Hne Hf Hr.
    exists (mimetype_of_suffix (Py.lower (suffix full_path))). split.
    + unfold artwork_data_uri. destruct ref as [|c ref]; [contradiction|].
      cbn [Py.truthy]. unfold _load_image_as_base64_data_uri.
      fold full_path. now rewrite Hf, Hr.
    + apply mimetype_cases.
  - intros ref Hne Hf. unfold artwork_data_uri.
    destruct ref as [|c ref]; [contradiction|]. cbn [Py.truthy].
    unfold _load_image_as_base64_data_uri. now rewrite Hf.
  - intros w d p k h Hs Hdb Hq Hne G Hart.
    rewrite (poll_miss _ _ _ G). unfold poll_body. rewrite Hdb, Hq, Hne.
    cbn [fst snd last]. unfold snapshot_of, build_SongInfo.
    now rewrite Hs, Hart.
Qed.

Lemma artwork_encoder_contract_witness :
  artwork_data_uri Fixture.one_cover (Some "/PIONEER/Artwork/cover.JPG")
    = Returns (Some "data:image/jpeg;base64,/9j/4A==") /\
  artwork_data_uri Fixture.locked_cover (Some "/PIONEER/Artwork/cover.JPG")
    = Returns None /\
  artwork_data_uri Fixture.hidden_cover (Some "/PIONEER/Artwork/cover.JPG")
    = RaisesOSError /\
  fst (poll (Fixture.serving Fixture.store_ab) RekordboxPoller_init
         (Fixture.key 0))
    = Returns (Some (mkSongInfo None (Some "Song B") (Some "Album B") None)).
Proof.
  split; [|split; [|split]].
  - destruct (artwork_encoder_contract Fixture.one_cover) as (_ & _ & H & _).
    destruct (H "/PIONEER/Artwork/cover.JPG" Fixture.cover_bytes)
      as (mime & E & Hjpeg & _); [discriminate|reflexivity|reflexivity|].
    rewrite E, Hjpeg; [reflexivity|now left].
  - destruct (artwork_encoder_contract Fixture.locked_cover) as (_ & H & _).
    apply (H "/PIONEER/Artwork/cover.JPG" true); [reflexivity|now right].
  - destruct (artwork_encoder_contract Fixture.hidden_cover)
      as (_ & _ & _ & H & _).
    apply H; [discriminate|reflexivity].
  - destruct (artwork_encoder_contract Fixture.no_files) as (_ & _ & _ & _ & H).
    apply (H (Fixture.serving Fixture.store_ab) Fixture.store_ab
             RekordboxPoller_init (Fixture.key 0)
             (mkHistory (Fixture.play "2" "c2" 20) Fixture.song_b));
      reflexivity.
Defined.

(** ** Change detection *)

Lemma list_eq_ids a b : list_eq a b = true <-> history_ids a = history_ids b.
Proof.
  revert b. induction a as [|x a IH]; intros [|y b]; simpl;
    try (split; [reflexivity|reflexivity]);
    try (split; discriminate).
  rewrite andb_true_iff, IH. unfold History_eq. rewrite String.eqb_eq.
  split; [intros [-> ->]; reflexivity|intros [= -> ->]; now split].
Qed.

Lemma history_eq_ids old history :
  history_eq old history = true <->
  exists l, old = Some l /\ history_ids l = history_ids history.
Proof.
  destruct old as [l|]; simpl.
  - rewrite list_eq_ids. split; [intros H; now exists l|].
    now intros (l' & [= <-] & H).
  - split; [discriminate|]. now intros (l & [=] & _).
Qed.

Lemma poll_body_seen w p ids :
  latest_ids w = Some ids -> seen ids (snd (poll_body w p)).
Proof.
  unfold latest_ids, poll_body. destruct (db w) as [|d]; [discriminate|].
  intros [= <-].
  destruct (Query.run d) as [|h0 rest] eqn:E; [now left|].
  destruct (history_eq (_history p) (h0 :: rest)) eqn:H; right.
  - apply history_eq_ids in H. exact H.
  - now exists (h0 :: rest).
Qed.

(** A call that runs the body leaves the fetched rows seen, whether it
    returns or raises. *)
Lemma poll_miss_seen w p k ids :
  LruCache.get k (poll_cache p) = None ->
  latest_ids w = Some ids -> seen ids (snd (poll w p k)).
Proof.
  intros G Hw. rewrite (poll_miss _ _ _ G).
  pose proof (poll_body_seen w p ids Hw) as Hs.
  destruct (poll_body w p) as [[r|] p']; cbn [fst snd] in *; [|exact Hs].
  destruct Hs as [Hs|Hs]; [now left|now right].
Qed.

Lemma poll_body_unchanged w p ids :
  latest_ids w = Some ids -> seen ids p -> poll_body w p = (Returns None, p).
Proof.
  unfold latest_ids, poll_body. destruct (db w) as [|d]; [discriminate|].
  intros [= <-].
  destruct (Query.run d) as [|h0 rest] eqn:E; [reflexivity|].
  intros [H|H]; [discriminate|].
  apply history_eq_ids in H. now rewrite H.
Qed.

Lemma poll_seen w p k ids :
  latest_ids w = Some ids -> seen ids p ->
  seen ids (snd (poll w p k)) /\
  (LruCache.get k (poll_cache p) = None -> fst (poll w p k) = Returns None).
Proof.
  intros Hw Hs. destruct (LruCache.get k (poll_cache p)) as [r|] eqn:G.
  - rewrite (poll_hit _ _ _ _ G). split; [exact Hs|discriminate].
  - rewrite (poll_miss _ _ _ G), (poll_body_unchanged _ _ _ Hw Hs).
    split; [exact Hs|reflexivity].
Qed.

Lemma polls_traced_seen calls : forall p ids,
  Forall (fun c => latest_ids (fst c) = Some ids) calls ->
  seen ids p ->
  Forall (fun e => fst e = false -> snd e = Returns None)
         (polls_traced calls p).
Proof.
  induction calls as [|[w k] calls IH]; intros p ids Hc Hs; [constructor|].
  inversion Hc as [|? ? Hw Hrest]; subst. cbn [fst] in Hw.
  destruct (poll_seen w p k ids Hw Hs) as [Hs' Hr].
  cbn [polls_traced]. constructor.
  - cbn [fst snd]. destruct (LruCache.get k (poll_cache p));
      [discriminate|]. intros _. now apply Hr.
  - now apply IH with ids.
Qed.

(** C1 does not hold as it is written: a second poll in the second of the
    change-detecting poll, against the same unchanged store, is answered from
    the cache and returns the snapshot once more. *)
Lemma poll_resends_within_one_second :
  latest_ids (Fixture.serving Fixture.store_a) = Some ["1"] /\
  fst (polls [(Fixture.serving Fixture.store_a, "2024-05-17 21:30:00");
              (Fixture.serving Fixture.store_a, "2024-05-17 21:30:00")]
         RekordboxPoller_init)
  = [Returns (Some (mkSongInfo (Some "Artist A") (Some "Song A") None None));
     Returns (Some (mkSongInfo (Some "Artist A") (Some "Song A") None None))].
Proof. split; reflexivity. Qed.

(** C1, amended: while the query keeps returning the same latest record, the
    first poll that runs its query and finds a record different from
    [_history] returns a snapshot (it can only fail to where the artwork
    path cannot be examined, and then it raises), and after one poll has
    run its query every later poll that runs its query returns [None].  (A
    poll whose key the cache holds returns the cached result instead.) *)
Theorem poll_unchanged_record_absent :
  forall (w : World) (ids : list string) (p : RekordboxPoller) (k : string)
         (calls : list (World * string)),
    latest_ids w = Some ids ->
    LruCache.get k (poll_cache p) = None ->
    Forall (fun c => latest_ids (fst c) = Some ids) calls ->
    (ids <> [] ->
     (forall l, _history p = Some l -> history_ids l <> ids) ->
     (exists s, fst (poll w p k) = Returns (Some s)) \/
     (fst (poll w p k) = RaisesOSError /\ ~ examinable w)) /\
    Forall (fun e => fst e = false -> snd e = Returns None)
      (polls_traced calls (snd (poll w p k))).
Proof.
  intros w ids p k calls Hw G Hc. split.
  - intros Hne Hnew. rewrite (poll_miss _ _ _ G).
    revert Hw. unfold latest_ids, poll_body.
    destruct (db w) as [|d]; [discriminate|]. intros [= <-].
    destruct (Query.run d) as [|h0 rest]; [contradiction|].
    destruct (history_eq (_history p) (h0 :: rest)) eqn:H.
    + apply history_eq_ids in H. destruct H as (l & Hl & E).
      now destruct (Hnew l Hl).
    + cbn [fst snd].
      destruct (snapshot_of d (share w) (last rest h0)) as [[s|]|] eqn:E.
      * left. now exists s.
      * unfold snapshot_of in E.
        destruct (build_SongInfo d (share w) (last rest h0)); discriminate.
      * right. split; [reflexivity|]. intros Hex.
        destruct (snapshot_of_returns w d (last rest h0) Hex) as [s Hs].
        congruence.
  - apply polls_traced_seen with ids; [exact Hc|].
    now apply poll_miss_seen.
Qed.

Lemma poll_unchanged_record_absent_witness :
  ((exists s,
       fst (poll (Fixture.serving Fixture.store_a) RekordboxPoller_init
              (Fixture.key 0)) = Returns (Some s)) \/
   (fst (poll (Fixture.serving Fixture.store_a) RekordboxPoller_init
           (Fixture.key 0)) = RaisesOSError /\
    ~ examinable (Fixture.serving Fixture.store_a))) /\
  Forall (fun e => fst e = false -> snd e = Returns None)
    (polls_traced [(Fixture.serving Fixture.store_a, Fixture.key 0);
                   (Fixture.serving Fixture.store_a, Fixture.key 1);
                   (Fixture.serving Fixture.store_a, Fixture.key 2)]
       (snd (poll (Fixture.serving Fixture.store_a) RekordboxPoller_init
               (Fixture.key 0)))).
Proof.
  destruct (poll_unchanged_record_absent
              (Fixture.serving Fixture.store_a) ["1"] RekordboxPoller_init
              (Fixture.key 0)
              [(Fixture.serving Fixture.store_a, Fixture.key 0);
               (Fixture.serving Fixture.store_a, Fixture.key 1);
               (Fixture.serving Fixture.store_a, Fixture.key 2)])
    as [Hfirst Hrest]; [reflexivity|reflexivity|repeat constructor|].
  split; [|exact Hrest].
  apply Hfirst; [discriminate|]. intros l H. discriminate H.
Defined.

Lemma snapshot_of_unfold d share_dir R :
  snapshot_of d share_dir R
  = match artwork_data_uri share_dir (DjmdContent.ImagePath (Content R)) with
    | Returns a =>
        Returns (Some (mkSongInfo (artist_name (Artist d (Content R)))
                                  (DjmdContent.Title (Content R))
                                  (album_name (Album d (Content R)))
                                  a))
    | RaisesOSError => RaisesOSError
    end.
Proof.
  unfold snapshot_of, build_SongInfo.
  now destruct (artwork_data_uri share_dir (DjmdContent.ImagePath (Content R))).
Qed.

(** A poll that runs its query and fetches one record it has not seen. *)
Lemma poll_detects w d R p k :
  db w = Serves d -> Query.run d = [R] ->
  history_eq (_history p) [R] = false ->
  LruCache.get k (poll_cache p) = None ->
  fst (poll w p k) = snapshot_of d (share w) R /\
  _history (snd (poll w p k)) = Some [R] /\
  forall k', k' <> k -> LruCache.get k' (poll_cache p) = None ->
             LruCache.get k' (poll_cache (snd (poll w p k))) = None.
Proof.
  intros Hd Hq Hnew G. rewrite (poll_miss _ _ _ G). unfold poll_body.
  rewrite Hd, Hq, Hnew. cbn [fst snd last].
  destruct (snapshot_of d (share w) R) as [r|]; cbn [fst snd _history poll_cache].
  - repeat split. intros k' N G'. now apply get_store_None.
  - repeat split. intros k' N G'. exact G'.
Qed.

(** C3 does not hold as it is written: the same track played twice gives two
    distinct history records, and the two polls return equal snapshots. *)
Lemma poll_distinct_records_equal_snapshots :
  Query.run Fixture.store_a
    = [mkHistory (Fixture.play "1" "c1" 10) Fixture.song_a] /\
  Query.run Fixture.store_aa
    = [mkHistory (Fixture.play "3" "c1" 30) Fixture.song_a] /\
  History_eq (mkHistory (Fixture.play "1" "c1" 10) Fixture.song_a)
             (mkHistory (Fixture.play "3" "c1" 30) Fixture.song_a) = false /\
  fst (polls [(Fixture.serving Fixture.store_a, "2024-05-17 21:30:00");
              (Fixture.serving Fixture.store_aa, "2024-05-17 21:33:00")]
         RekordboxPoller_init)
  = [Returns (Some (mkSongInfo (Some "Artist A") (Some "Song A") None None));
     Returns (Some (mkSongInfo (Some "Artist A") (Some "Song A") None None))].
Proof. repeat split. Qed.

(** C3, amended: for two distinct successive latest records R1 then R2, the
    poll that first observes R1 returns the snapshot of R1's joined metadata
    (artist, title, album, absent where the join is null, and the encoded
    artwork) and sets [_history] to R1; the poll observing R2 returns the
    snapshot of R2's metadata and sets [_history] to R2.  The snapshots differ
    whenever the two records differ in title; nothing makes them differ
    otherwise.  Both polls run their query: their keys are not cached.  A
    poll returns its snapshot where the artwork path can be examined; where
    [is_file] raises, the poll raises, with [_history] set all the same. *)
Theorem poll_detects_successive_records :
  forall (w1 w2 : World) (d1 d2 : Database) (R1 R2 : History)
         (p : RekordboxPoller) (k1 k2 : string),
    db w1 = Serves d1 -> Query.run d1 = [R1] ->
    db w2 = Serves d2 -> Query.run d2 = [R2] ->
    History_eq R1 R2 = false ->
    history_eq (_history p) [R1] = false ->
    LruCache.get k1 (poll_cache p) = None ->
    LruCache.get k2 (poll_cache p) = None ->
    k2 <> k1 ->
    let snapshot d (w : World) R :=
      match artwork_data_uri (share w) (DjmdContent.ImagePath (Content R)) with
      | Returns a =>
          Returns (Some (mkSongInfo (artist_name (Artist d (Content R)))
                                    (DjmdContent.Title (Content R))
                                    (album_name (Album d (Content R)))
                                    a))
      | RaisesOSError => RaisesOSError
      end in
    let p1 := snd (poll w1 p k1) in
    let p2 := snd (poll w2 p1 k2) in
    fst (poll w1 p k1) = snapshot d1 w1 R1 /\
    _history p1 = Some [R1] /\
    fst (poll w2 p1 k2) = snapshot d2 w2 R2 /\
    _history p2 = Some [R2] /\
    (examinable w1 -> exists s1, snapshot d1 w1 R1 = Returns (Some s1)) /\
    (examinable w2 -> exists s2, snapshot d2 w2 R2 = Returns (Some s2)) /\
    (forall s1, snapshot d1 w1 R1 = Returns (Some s1) ->
                Artist d1 (Content R1) = None -> artist s1 = None) /\
    (forall s1, snapshot d1 w1 R1 = Returns (Some s1) ->
                Album d1 (Content R1) = None -> album s1 = None) /\
    (forall s1 s2,
        snapshot d1 w1 R1 = Returns (Some s1) ->
        snapshot d2 w2 R2 = Returns (Some s2) ->
        DjmdContent.Title (Content R1) <> DjmdContent.Title (Content R2) ->
        s1 <> s2).
Proof.
  intros w1 w2 d1 d2 R1 R2 p k1 k2 Hd1 Hq1 Hd2 Hq2 Hne Hnew G1 G2 Hk
         snapshot p1 p2.
  assert (Hsnap : forall d w R, snapshot d w R = snapshot_of d (share w) R)
    by (intros; symmetry; apply snapshot_of_unfold).
  destruct (poll_detects w1 d1 R1 p k1 Hd1 Hq1 Hnew G1) as (E1 & H1 & C1).
  fold p1 in H1, C1.
  assert (Hnew2 : history_eq (_history p1) [R2] = false).
  { rewrite H1. cbn [history_eq list_eq]. now rewrite Hne. }
  destruct (poll_detects w2 d2 R2 p1 k2 Hd2 Hq2 Hnew2 (C1 k2 Hk G2))
    as (E2 & H2 & _).
  fold p2 in H2. rewrite !Hsnap.
  split; [exact E1|]. split; [exact H1|]. split; [exact E2|].
  split; [exact H2|].
  split; [apply snapshot_of_returns|]. split; [apply snapshot_of_returns|].
  rewrite <- !Hsnap. subst snapshot. cbv beta.
  destruct (artwork_data_uri (share w1) (DjmdContent.ImagePath (Content R1)))
    as [a1|];
    destruct (artwork_data_uri (share w2) (DjmdContent.ImagePath (Content R2)))
      as [a2|];
    repeat split; intros; try discriminate;
    repeat match goal with
           | H : Returns _ = Returns _ |- _ => injection H as H; subst
           end;
    cbn [artist album]; try congruence;
    match goal with
    | H : _ = None |- _ => now rewrite H
    end.
Qed.

Lemma poll_detects_successive_records_witness :
  fst (poll (Fixture.serving Fixture.store_a) RekordboxPoller_init
         (Fixture.key 0))
    = Returns (Some (mkSongInfo (Some "Artist A") (Some "Song A") None None)) /\
  fst (poll (Fixture.serving Fixture.store_ab)
         (snd (poll (Fixture.serving Fixture.store_a) RekordboxPoller_init
                 (Fixture.key 0)))
         (Fixture.key 3))
    = Returns (Some (mkSongInfo None (Some "Song B") (Some "Album B") None)).
Proof.
  pose proof (poll_detects_successive_records
                (Fixture.serving Fixture.store_a)
                (Fixture.serving Fixture.store_ab)
                Fixture.store_a Fixture.store_ab
                (mkHistory (Fixture.play "1" "c1" 10) Fixture.song_a)
                (mkHistory (Fixture.play "2" "c2" 20) Fixture.song_b)
                RekordboxPoller_init (Fixture.key 0) (Fixture.key 3)
                eq_refl eq_refl eq_refl eq_refl eq_refl eq_refl eq_refl eq_refl)
    as H.
  destruct H as (H1 & _ & H2 & _); [discriminate|].
  split; [exact H1|exact H2].
Defined.

(** ** Survival of a cache entry *)

Section Survival.

Local Open Scope list_scope.

Context {V : Type}.
Implicit Types (c pre post : LruCache.t V) (k : string) (v : V).



Lemma remove_app_found k v pre post :
  ~ In k (LruCache.keys pre) ->
  LruCache.remove k (pre ++ (k, v) :: post) = (pre ++ post)%list.
Proof.
  induction pre as [|[k' v'] pre IH]; simpl; intros H.
  - now rewrite String.eqb_refl.
  - destruct (String.eqb_spec k k') as [->|N].
    + exfalso. apply H. now left.
    + f_equal. apply IH. intros I. apply H. now right.
Qed.





Variables (k : string) (r : V) (A : list string).
Hypothesis few : (length A < LruCache.maxsize)%nat.


Lemma holds_front c : holds k r A ((k, r) :: c).
Proof.
  exists [], c. repeat split; [constructor|intros []|intros x []].
Qed.

Lemma holds_hit_same c : holds k r A c -> holds k r A (LruCache.hit k r c).
Proof. intros _. apply holds_front. Qed.



End Survival.

(** ** The cache key *)







(** ** Repeated keys *)







(** The bound is sharp: after 100 other keys the entry is gone and the call
    runs its query again. *)
Example poll_same_key_after_100_keys :
  let w := Fixture.serving Fixture.store_a in
  let p1 := snd (poll w RekordboxPoller_init "first") in
  fst (poll w (snd (polls (map (fun k => (w, k)) (firstn 99 Fixture.many_keys)) p1))
         "first")
    = Returns (Some (mkSongInfo (Some "Artist A") (Some "Song A") None None)) /\
  fst (poll w (snd (polls (map (fun k => (w, k)) (firstn 100 Fixture.many_keys)) p1))
         "first")
    = Returns None.
Proof. vm_compute. split; reflexivity. Qed.

(** ** The history query *)

Lemma where_clause_keeps_all l : filter Query.where_clause l = l.
Proof.
  induction l as [|r l IH]; [reflexivity|].
  cbn [filter]. unfold Query.where_clause at 1, Query.Title_is_not_None.
  now rewrite IH.
Qed.

Lemma insert_desc_In r x l :
  In x (Query.insert_desc r l) <-> x = r \/ In x l.
Proof.
  induction l as [|r' l IH]; simpl.
  - split; [intros [<-|[]]; now left|intros [->|[]]; now left].
  - destruct (Query.created_at r' <=? Query.created_at r)%Z; simpl.
    + split; [intros [<-|H]; [now left|now right]|intros [->|H]; [now left|now right]].
    + rewrite IH. split.
      * intros [<-|[->|H]]; [right; now left|now left|right; now right].
      * intros [->|[<-|H]]; [right; now left|now left|right; now right].
Qed.

Lemma order_by_In x l : In x (Query.order_by_created_at_desc l) <-> In x l.
Proof.
  induction l as [|r l IH]; simpl; [reflexivity|].
  rewrite insert_desc_In, IH. split; intros [H|H]; auto.
Qed.

Lemma insert_desc_latest_first r l :
  latest_first l -> latest_first (Query.insert_desc r l).
Proof.
  destruct l as [|r' l]; simpl.
  - intros _. constructor; [lia|constructor].
  - intros H. destruct (Z.leb_spec (Query.created_at r') (Query.created_at r)) as [L|L];
      simpl.
    + constructor; [lia|]. eapply Forall_impl; [|exact H].
      simpl. intros y Hy. lia.
    + inversion H as [|? ? H1 H2]; subst. constructor; [lia|].
      apply Forall_forall. intros y Hy. apply insert_desc_In in Hy.
      destruct Hy as [->|Hy]; [lia|].
      rewrite Forall_forall in H2. now apply H2.
Qed.

Lemma order_by_latest_first l : latest_first (Query.order_by_created_at_desc l).
Proof.
  induction l as [|r l IH]; simpl; [exact I|].
  now apply insert_desc_latest_first.
Qed.

(** The query returns at most one instance; it is a joined history row no
    older than any other, and there is one whenever some history row has its
    content. *)
Lemma Query_run_latest d :
  (length (Query.run d) <= 1)%nat /\
  (forall h, In h (Query.run d) ->
     exists r, In r (Query.joined d) /\ h = Query.entity r /\
       forall r', In r' (Query.joined d) ->
         (Query.created_at r' <= Query.created_at r)%Z) /\
  (Query.joined d <> [] -> Query.run d <> []).
Proof.
  unfold Query.run. rewrite where_clause_keeps_all.
  pose proof (order_by_latest_first (Query.joined d)) as Hmax.
  pose proof (fun x => order_by_In x (Query.joined d)) as Hin.
  destruct (Query.order_by_created_at_desc (Query.joined d)) as [|r l]; simpl.
  - repeat split; [lia|intros h []|].
    destruct (Query.joined d) as [|r0 l0]; [easy|].
    destruct (proj2 (Hin r0)). now left.
  - repeat split; [lia| |discriminate].
    intros h [<-|[]]. exists r. repeat split.
    + apply Hin. now left.
    + intros r' Hr'. apply Hin in Hr'. simpl in Hmax.
      rewrite Forall_forall in Hmax. now apply Hmax.
Qed.

(** C4, at the input where the code departs from it: the latest history row
    plays a content whose [Title] is NULL.  The [where] clause received the
    constant true, so the query returns that row and the poll sends a
    snapshot with no title. *)
Theorem query_keeps_untitled_content :
  Query.run Fixture.store_untitled
    = [mkHistory (Fixture.play "5" "c4" 50) Fixture.untitled] /\
  DjmdContent.Title Fixture.untitled = None /\
  fst (poll (Fixture.serving Fixture.store_untitled) RekordboxPoller_init
         "2024-05-17 21:30:00")
    = Returns (Some (mkSongInfo (Some "Artist A") None None None)).
Proof. repeat split. Qed.

(** Absent artist and album stay absent in the snapshot, never [""]. *)
Lemma absent_metadata_stays_absent d share_dir h s :
  build_SongInfo d share_dir h = Returns s ->
  (Artist d (Content h) = None -> artist s = None) /\
  (Album d (Content h) = None -> album s = None) /\
  (forall a, Artist d (Content h) = Some a -> artist s = DjmdArtist.Name a) /\
  (forall a, Album d (Content h) = Some a -> album s = DjmdAlbum.Name a).
Proof.
  unfold build_SongInfo.
  destruct (artwork_data_uri share_dir (DjmdContent.ImagePath (Content h)));
    [|discriminate].
  intros [= <-]. cbn [artist album].
  repeat split; intros; match goal with H : _ = _ |- _ => now rewrite H end.
Qed.

(** ** The broadcast loops *)

Section Cycle.

Local Open Scope list_scope.

Variables (m : Moment) (poller : RekordboxPoller).

Let cache_key := strftime (now m).
Let state := fst (poll (world m) poller cache_key).
Let poller' := snd (poll (world m) poller cache_key).

Lemma _send_track_info_absent :
  state = Returns None ->
  _send_track_info m poller = (Returned, poller', [Polled cache_key None]).
Proof.
  subst state poller' cache_key. unfold _send_track_info.
  destruct (poll (world m) poller (strftime (now m))) as [st p'].
  cbn [fst snd]. now intros ->.
Qed.

Lemma _send_track_info_delivers s :
  state = Returns (Some s) -> send m = Delivers ->
  _send_track_info m poller
  = (Returned, poller', [Polled cache_key (Some s); Sent s]).
Proof.
  subst state poller' cache_key. unfold _send_track_info.
  destruct (poll (world m) poller (strftime (now m))) as [st p'].
  cbn [fst snd]. now intros -> ->.
Qed.

Lemma _send_track_info_closed_ok s :
  state = Returns (Some s) -> send m = Raises ConnectionClosedOK ->
  _send_track_info m poller
  = (Returned, poller',
     [Polled cache_key (Some s); SendRaised s ConnectionClosedOK]).
Proof.
  subst state poller' cache_key. unfold _send_track_info.
  destruct (poll (world m) poller (strftime (now m))) as [st p'].
  cbn [fst snd]. now intros -> ->.
Qed.

Lemma _send_track_info_raises s e :
  state = Returns (Some s) -> send m = Raises e -> e <> ConnectionClosedOK ->
  _send_track_info m poller
  = (Raised e, poller', [Polled cache_key (Some s); SendRaised s e]).
Proof.
  subst state poller' cache_key. unfold _send_track_info.
  destruct (poll (world m) poller (strftime (now m))) as [st p'].
  cbn [fst snd]. intros -> -> N. destruct e; try reflexivity.
  now destruct N.
Qed.

(** A cycle that does not meet a fatal send failure returns, having polled
    first and sent at most once after it. *)
Lemma _send_track_info_poll_raises :
  state = RaisesOSError ->
  _send_track_info m poller = (RaisedOSError, poller', [PollRaised cache_key]).
Proof.
  subst state poller' cache_key. unfold _send_track_info.
  destruct (poll (world m) poller (strftime (now m))) as [st p'].
  cbn [fst snd]. now intros ->.
Qed.

Lemma _send_track_info_returns :
  examinable (world m) ->
  send m = Delivers \/ send m = Raises ConnectionClosedOK ->
  exists (sent : bool) (evs : list Event) (st : option SongInfo),
    _send_track_info m poller
    = (Returned, poller', Polled cache_key st :: evs) /\
    map kind (Polled cache_key st :: evs)
    = (if sent then [KPoll; KSend] else [KPoll]).
Proof.
  intros Hex Hsend.
  destruct (poll_returns (world m) poller cache_key Hex) as [[s|] E];
    fold state in E.
  - destruct Hsend as [H|H].
    + exists true, [Sent s], (Some s). split; [|reflexivity].
      now apply _send_track_info_delivers.
    + exists true, [SendRaised s ConnectionClosedOK], (Some s).
      split; [|reflexivity]. now apply _send_track_info_closed_ok.
  - exists false, [], None. split; [|reflexivity].
    now apply _send_track_info_absent.
Qed.

End Cycle.

(** C7: one cycle makes at most one send.  When that send fails because the
    peer closed the connection normally, [_send_track_info] returns and both
    loops go on with the rest of their script: the hotkey loop takes the next
    item of its queue.  When it fails in any other way the exception leaves
    [_send_track_info] and the loop, whatever the script still holds. *)
Theorem send_failure_swallowed_or_fatal :
  forall (m : Moment) (poller : RekordboxPoller) (s : SongInfo)
         (e : SendException),
    fst (poll (world m) poller (strftime (now m))) = Returns (Some s) ->
    send m = Raises e ->
    let poller' := snd (poll (world m) poller (strftime (now m))) in
    let evs := [Polled (strftime (now m)) (Some s); SendRaised s e] in
    (length (filter is_send (snd (_send_track_info m poller))) <= 1)%nat /\
    (e = ConnectionClosedOK ->
     _send_track_info m poller = (Returned, poller', evs) /\
     (forall rest : list (bool * Moment),
         wait_for_hotkey ((true, m) :: rest) poller
         = (fst (fst (wait_for_hotkey rest poller')),
            snd (fst (wait_for_hotkey rest poller')),
            GotKey true :: evs ++ snd (wait_for_hotkey rest poller'))%list) /\
     (forall (interval : QArith_base.Q) (rest : list Moment),
         wait_for_interval interval (m :: rest) poller
         = (fst (fst (wait_for_interval interval rest poller')),
            snd (fst (wait_for_interval interval rest poller')),
            evs ++ Slept interval
                :: snd (wait_for_interval interval rest poller'))%list)) /\
    (e <> ConnectionClosedOK ->
     _send_track_info m poller = (Raised e, poller', evs) /\
     (forall rest : list (bool * Moment),
         wait_for_hotkey ((true, m) :: rest) poller
         = (Crashed e, poller', GotKey true :: evs)) /\
     (forall (interval : QArith_base.Q) (rest : list Moment),
         wait_for_interval interval (m :: rest) poller
         = (Crashed e, poller', evs))).
Proof.
  intros m poller s e Hs He poller' evs. split; [|split].
  - destruct (is_ConnectionClosedOK e) eqn:C.
    + destruct e; try discriminate.
      now rewrite (_send_track_info_closed_ok m poller s Hs He).
    + rewrite (_send_track_info_raises m poller s e Hs He); [simpl; lia|].
      now intros ->.
  - intros ->.
    pose proof (_send_track_info_closed_ok m poller s Hs He) as E.
    split; [exact E|]. split.
    + intros rest. cbn [wait_for_hotkey]. rewrite E. fold poller'.
      now destruct (wait_for_hotkey rest poller') as [[st p''] evs'].
    + intros interval rest. cbn [wait_for_interval]. rewrite E. fold poller'.
      now destruct (wait_for_interval interval rest poller') as [[st p''] evs'].
  - intros N.
    pose proof (_send_track_info_raises m poller s e Hs He N) as E.
    split; [exact E|]. split.
    + intros rest. cbn [wait_for_hotkey]. now rewrite E.
    + intros interval rest. cbn [wait_for_interval]. now rewrite E.
Qed.

Lemma send_failure_swallowed_or_fatal_witness :
  fst (fst (wait_for_hotkey
              [(true, Fixture.closed_ok); (true, Fixture.next_track)]
              RekordboxPoller_init)) = Awaiting /\
  fst (fst (wait_for_hotkey
              [(true, Fixture.closed_error); (true, Fixture.next_track)]
              RekordboxPoller_init)) = Crashed ConnectionClosedError.
Proof.
  split.
  - destruct (send_failure_swallowed_or_fatal Fixture.closed_ok
                RekordboxPoller_init
                (mkSongInfo (Some "Artist A") (Some "Song A") None None)
                ConnectionClosedOK eq_refl eq_refl) as (_ & Hok & _).
    destruct (Hok eq_refl) as (_ & Hloop & _).
    rewrite Hloop. reflexivity.
  - destruct (send_failure_swallowed_or_fatal Fixture.closed_error
                RekordboxPoller_init
                (mkSongInfo (Some "Artist A") (Some "Song A") None None)
                ConnectionClosedError eq_refl eq_refl) as (_ & _ & Hbad).
    destruct Hbad as (_ & Hloop & _); [discriminate|].
    rewrite Hloop. reflexivity.
Defined.

(** C8: [wait_for_interval] polls, then waits.  As long as the artwork paths
    can be examined, so that no poll raises, and no send fails fatally, an
    iteration is a poll, the send when there is a snapshot, and then the
    sleep of the configured interval; the run starts with the poll of the
    first moment, and however long the script the loop is still running at
    its end. *)
Theorem interval_trigger_polls_then_waits :
  forall (interval : QArith_base.Q) (script : list Moment)
         (poller : RekordboxPoller),
    Forall (fun m => examinable (world m)) script ->
    Forall (fun m => send m = Delivers \/ send m = Raises ConnectionClosedOK)
           script ->
    let evs := snd (wait_for_interval interval script poller) in
    fst (fst (wait_for_interval interval script poller)) = Awaiting /\
    (exists sent : list bool,
        length sent = length script /\
        map kind evs
        = flat_map (fun b : bool =>
                      if b then [KPoll; KSend; KSleep] else [KPoll; KSleep])
                   sent) /\
    Forall (fun e => forall i, e = Slept i -> i = interval) evs /\
    match script with
    | m :: _ => exists state rest, evs = Polled (strftime (now m)) state :: rest
    | [] => evs = []
    end.
Proof.
  intros interval script. induction script as [|m script IH];
    intros poller Hex Hsend evs; subst evs.
  - cbn. repeat split; [now exists []|constructor].
  - inversion Hsend as [|? ? Hm Hrest]; subst.
    inversion Hex as [|? ? Hxm Hxrest]; subst.
    destruct (_send_track_info_returns m poller Hxm Hm)
      as (b & evs0 & st & E & K).
    cbn [wait_for_interval]. rewrite E.
    specialize (IH (snd (poll (world m) poller (strftime (now m))))
                  Hxrest Hrest).
    destruct (wait_for_interval interval script
                (snd (poll (world m) poller (strftime (now m)))))
      as [[st' p''] evs'].
    cbn [fst snd] in *. destruct IH as (Hst & (sent & Hlen & Hk) & Hsl & _).
    repeat split.
    + exact Hst.
    + exists (b :: sent). split; [cbn; now rewrite Hlen|].
      cbn [flat_map]. rewrite <- Hk.
      change (Polled (strftime (now m)) st :: evs0 ++ Slept interval :: evs')%list
        with ((Polled (strftime (now m)) st :: evs0) ++ Slept interval :: evs')%list.
      rewrite map_app, K. now destruct b.
    + constructor; [discriminate|]. apply Forall_app. split.
      * apply Forall_forall. intros e He i ->.
        assert (Hin : In KSleep (map kind (Polled (strftime (now m)) st :: evs0)))
          by (right; apply (in_map kind _ _ He)).
        rewrite K in Hin. destruct b; simpl in Hin; intuition discriminate.
      * constructor; [now intros i [= <-]|exact Hsl].
    + now exists st, (evs0 ++ Slept interval :: evs')%list.
Qed.

Lemma interval_trigger_polls_then_waits_witness :
  map kind
    (snd (wait_for_interval (QArith_base.Qmake 3 1)
            [mkMoment (Fixture.at_second 0) (Fixture.serving Fixture.store_a)
               Delivers;
             mkMoment (Fixture.at_second 3) (Fixture.serving Fixture.store_a)
               Delivers;
             mkMoment (Fixture.at_second 6) (Fixture.serving Fixture.store_ab)
               (Raises ConnectionClosedOK)]
            RekordboxPoller_init))
  = [KPoll; KSend; KSleep; KPoll; KSleep; KPoll; KSend; KSleep] /\
  fst (fst (wait_for_interval (QArith_base.Qmake 3 1)
              [mkMoment (Fixture.at_second 0) (Fixture.serving Fixture.store_a)
                 Delivers;
               mkMoment (Fixture.at_second 3) (Fixture.serving Fixture.store_a)
                 Delivers;
               mkMoment (Fixture.at_second 6) (Fixture.serving Fixture.store_ab)
                 (Raises ConnectionClosedOK)]
              RekordboxPoller_init)) = Awaiting.
Proof.
  split; [reflexivity|].
  apply (interval_trigger_polls_then_waits (QArith_base.Qmake 3 1)).
  - repeat constructor; intros rel; discriminate.
  - constructor; [now left|]. constructor; [now left|].
    constructor; [now right|]. constructor.
Defined.

(** * Further properties of the code *)

(** ** What the query returns *)

Lemma joined_In d r :
  In r (Query.joined d) <->
  exists h cid c,
    In h (djmdSongHistory d) /\
    DjmdSongHistory.ContentID h = Some cid /\
    djmdContent d cid = Some c /\
    r = (h, c, Artist d c).
Proof.
  unfold Query.joined. rewrite in_map_iff. split.
  - intros ([h c] & <- & H). apply in_flat_map in H.
    destruct H as (h' & Hh' & H). unfold Query.join_content in H.
    destruct (DjmdSongHistory.ContentID h') as [cid|] eqn:E; [|destruct H].
    destruct (djmdContent d cid) as [c'|] eqn:E'; [|destruct H].
    destruct H as [[= <- <-]|[]]. now exists h', cid, c'.
  - intros (h & cid & c & Hh & E & E' & ->). exists (h, c). split; [reflexivity|].
    apply in_flat_map. exists h. split; [exact Hh|].
    unfold Query.join_content. rewrite E, E'. now left.
Qed.

(** X1.  The query answers with at most one instance.  It is a row of the history
    table whose [ContentID] names a content row, which is the content the
    instance carries, and no history row that has a content row is younger;
    history rows without a content row are never returned.  As soon as one
    history row has its content row, the answer is not empty. *)
Theorem query_returns_latest_played :
  forall d : Database,
    (length (Query.run d) <= 1)%nat /\
    (forall h : History,
        In h (Query.run d) ->
        In (row h) (djmdSongHistory d) /\
        (exists cid,
            DjmdSongHistory.ContentID (row h) = Some cid /\
            djmdContent d cid = Some (Content h)) /\
        (forall (h' : DjmdSongHistory.t) cid' c',
            In h' (djmdSongHistory d) ->
            DjmdSongHistory.ContentID h' = Some cid' ->
            djmdContent d cid' = Some c' ->
            (DjmdSongHistory.created_at h'
             <= DjmdSongHistory.created_at (row h))%Z)) /\
    (forall (h' : DjmdSongHistory.t) cid' c',
        In h' (djmdSongHistory d) ->
        DjmdSongHistory.ContentID h' = Some cid' ->
        djmdContent d cid' = Some c' ->
        Query.run d <> []).
Proof.
  intros d. destruct (Query_run_latest d) as (Hlen & Hin & Hne).
  split; [exact Hlen|]. split.
  - intros h Hh. destruct (Hin h Hh) as (r & Hr & -> & Hmax).
    apply joined_In in Hr as Hr'.
    destruct Hr' as (h0 & cid & c & Hh0 & E & E' & ->).
    cbn [Query.entity row Content fst snd]. repeat split.
    + exact Hh0.
    + now exists cid.
    + intros h' cid' c' Hh' F F'.
      apply (Hmax (h', c', Artist d c')). apply joined_In.
      now exists h', cid', c'.
  - intros h' cid' c' Hh' F F'. apply Hne. intros Hnil.
    assert (H : In (h', c', Artist d c') (Query.joined d))
      by (apply joined_In; now exists h', cid', c').
    rewrite Hnil in H. destruct H.
Qed.

Lemma query_returns_latest_played_witness :
  Forall (fun h =>
            (DjmdSongHistory.created_at (Fixture.play "1" "c1" 10)
             <= DjmdSongHistory.created_at (row h))%Z)
         (Query.run Fixture.store_ab) /\
  Query.run Fixture.store_ab <> [].
Proof.
  destruct (query_returns_latest_played Fixture.store_ab) as (_ & H & Hne).
  split.
  - apply Forall_forall. intros h Hh. destruct (H h Hh) as (_ & _ & Hmax).
    apply (Hmax (Fixture.play "1" "c1" 10) "c1" Fixture.song_a);
      [now left|reflexivity|reflexivity].
  - apply (Hne (Fixture.play "1" "c1" 10) "c1" Fixture.song_a);
      [now left|reflexivity|reflexivity].
Defined.

(** ** The content of the cache *)

Section Recency.

Local Open Scope list_scope.

Context {V : Type}.
Implicit Types (c : LruCache.t V) (k : string) (v : V) (R : list string).

Lemma keys_remove k c :
  LruCache.keys (LruCache.remove k c) = remove_key k (LruCache.keys c).
Proof.
  induction c as [|[k' v'] c IH]; simpl; [reflexivity|].
  destruct (String.eqb k k'); [reflexivity|]. simpl. now rewrite IH.
Qed.

Lemma firstn_remove_key_in k R : forall n,
  In k (firstn (S n) R) ->
  firstn n (remove_key k R) = remove_key k (firstn (S n) R).
Proof.
  induction R as [|x R IH]; intros n H; [destruct H|].
  cbn [firstn remove_key] in *. destruct (String.eqb_spec k x) as [->|N].
  - reflexivity.
  - destruct H as [E|H]; [now destruct N|].
    destruct n as [|n]; [destruct H|].
    cbn [firstn]. f_equal. now apply IH.
Qed.

Lemma firstn_remove_key_out k R : forall n,
  ~ In k (firstn n R) -> firstn n (remove_key k R) = firstn n R.
Proof.
  induction R as [|x R IH]; intros n H; [reflexivity|].
  destruct n as [|n]; [reflexivity|].
  cbn [firstn remove_key] in *. destruct (String.eqb_spec k x) as [->|N].
  - exfalso. apply H. now left.
  - cbn [firstn]. f_equal. apply IH. intros I. apply H. now right.
Qed.

Lemma removelast_firstn_S R : forall n,
  (S n <= length R)%nat -> removelast (firstn (S n) R) = firstn n R.
Proof.
  induction R as [|x R IH]; intros n H; [simpl in H; lia|].
  destruct n as [|n]; [reflexivity|].
  simpl in H. change (firstn (S (S n)) (x :: R)) with (x :: firstn (S n) R).
  destruct (firstn (S n) R) as [|y l] eqn:E.
  - destruct R; [simpl in H; lia|discriminate].
  - change (removelast (x :: y :: l)) with (x :: removelast (y :: l)).
    rewrite <- E, IH by lia. reflexivity.
Qed.

Lemma keys_hit k v c R n :
  LruCache.keys c = firstn (S n) R ->
  In k (LruCache.keys c) ->
  LruCache.keys (LruCache.hit k v c) = firstn (S n) (touch R k).
Proof.
  intros E H. unfold LruCache.hit, touch.
  cbn [LruCache.keys map fst firstn]. fold (LruCache.keys (LruCache.remove k c)).
  rewrite keys_remove, E. f_equal. symmetry. apply firstn_remove_key_in.
  now rewrite <- E.
Qed.

Lemma firstn_In_le R (x : string) : forall n, In x (firstn n R) -> In x (firstn (S n) R).
Proof.
  induction R as [|y R IH]; intros n I; [now destruct n|].
  destruct n as [|n]; [destruct I|]. cbn [firstn] in I.
  rewrite firstn_cons. destruct I as [->|I]; [now left|right; now apply IH].
Qed.

Lemma keys_removelast c :
  LruCache.keys (removelast c) = removelast (LruCache.keys c).
Proof.
  unfold LruCache.keys. induction c as [|e c IH]; [reflexivity|].
  destruct c as [|e' c]; [reflexivity|].
  change (removelast (e :: e' :: c)) with (e :: removelast (e' :: c)).
  cbn [map]. cbn [map] in IH. now rewrite IH.
Qed.

Lemma keys_store_gen n k c R :
  LruCache.keys c = firstn (S n) R ->
  ~ In k (LruCache.keys c) ->
  k :: LruCache.keys (if (S n <=? length c)%nat then removelast c else c)
  = firstn (S n) (touch R k).
Proof.
  intros E H. unfold touch. rewrite firstn_cons. f_equal.
  assert (L : length c = length (LruCache.keys c))
    by (unfold LruCache.keys; now rewrite length_map).
  rewrite firstn_remove_key_out
    by (intros I; apply H; rewrite E; now apply firstn_In_le).
  destruct (Nat.leb_spec (S n) (length c)) as [Hfull|Hroom].
  - rewrite keys_removelast, E. apply removelast_firstn_S.
    rewrite L, E, length_firstn in Hfull. lia.
  - rewrite E. rewrite L, E, length_firstn in Hroom.
    rewrite !firstn_all2 by lia. reflexivity.
Qed.

Lemma keys_store k v c R :
  LruCache.keys c = firstn LruCache.maxsize R ->
  ~ In k (LruCache.keys c) ->
  LruCache.keys (LruCache.store k v c) = firstn LruCache.maxsize (touch R k).
Proof. exact (keys_store_gen 99 k c R). Qed.

Lemma remove_key_NoDup k R :
  NoDup R -> NoDup (remove_key k R) /\ ~ In k (remove_key k R) /\
             incl (remove_key k R) R.
Proof.
  induction 1 as [|x R Hx HR IH]; simpl.
  - repeat split; [constructor|intros []|intros y []].
  - destruct (String.eqb_spec k x) as [->|N].
    + repeat split; [exact HR|exact Hx|apply incl_tl, incl_refl].
    + destruct IH as (IH1 & IH2 & IH3). repeat split.
      * constructor; [|exact IH1]. intros I. apply Hx. now apply IH3.
      * intros [E|I]; [now apply N|now apply IH2].
      * intros y [<-|I]; [now left|right; now apply IH3].
Qed.

Lemma recency_NoDup accesses : NoDup (recency accesses).
Proof.
  unfold recency. assert (H : NoDup (@nil string)) by constructor.
  revert H. generalize (@nil string).
  induction accesses as [|k l IH]; intros R H; [exact H|].
  cbn [fold_left]. apply IH. unfold touch.
  destruct (remove_key_NoDup k R H) as (H1 & H2 & _). now constructor.
Qed.

End Recency.

(** A call that returns uses its key; a call that raises leaves the cache as
    it was. *)
Lemma poll_keys w p k R :
  LruCache.keys (poll_cache p) = firstn LruCache.maxsize R ->
  LruCache.keys (poll_cache (snd (poll w p k)))
  = firstn LruCache.maxsize
      (match fst (poll w p k) with
       | Returns _ => touch R k
       | RaisesOSError => R
       end).
Proof.
  intros E. destruct (LruCache.get k (poll_cache p)) as [r|] eqn:G.
  - rewrite (poll_hit _ _ _ _ G). cbn [fst snd poll_cache].
    apply (keys_hit k r (poll_cache p) R 99 E).
    destruct (in_dec string_dec k (LruCache.keys (poll_cache p))) as [I|I];
      [exact I|]. apply get_In_keys in I. congruence.
  - rewrite (poll_miss _ _ _ G).
    destruct (fst (poll_body w p)) as [r|] eqn:B; cbn [fst snd poll_cache].
    + apply keys_store; [exact E|]. now apply get_In_keys.
    + now rewrite poll_body_cache.
Qed.

Lemma polls_keys calls : forall p R,
  LruCache.keys (poll_cache p) = firstn LruCache.maxsize R ->
  LruCache.keys (poll_cache (snd (polls calls p)))
  = firstn LruCache.maxsize
      (fold_left touch (returned_keys (map snd calls) (fst (polls calls p))) R).
Proof.
  induction calls as [|[w k] calls IH]; intros p R E; [exact E|].
  pose proof (poll_keys w p k R E) as E'.
  cbn [polls map snd]. destruct (poll w p k) as [r p'].
  cbn [fst snd] in E'.
  specialize (IH p' _ E').
  destruct (polls calls p') as [rs p'']. cbn [fst snd] in *.
  now destruct r.
Qed.

Lemma polls_all_return calls : forall p,
  Forall (fun c => examinable (fst c)) calls ->
  returned_keys (map snd calls) (fst (polls calls p)) = map snd calls.
Proof.
  induction calls as [|[w k] calls IH]; intros p H; [reflexivity|].
  inversion H as [|? ? Hw Hrest]; subst. cbn [fst] in Hw.
  destruct (poll_returns w p k Hw) as [r E].
  cbn [polls map snd]. destruct (poll w p k) as [r' p'].
  cbn [fst] in E. subst r'. specialize (IH p' Hrest).
  destruct (polls calls p') as [rs p'']. cbn [fst snd returned_keys] in *.
  now rewrite IH.
Qed.

(** X2.  Whatever calls a new poller has served, its cache holds exactly the
    100 most recently used distinct cache keys among the calls that returned,
    the latest first: no key twice and never more than 100 entries.  A call
    that raised left no entry; where every artwork path can be examined no
    call raises and these are the keys of all the calls. *)
Theorem poll_cache_holds_most_recent_keys :
  forall calls : list (World * string),
    let used :=
      returned_keys (map snd calls) (fst (polls calls RekordboxPoller_init)) in
    LruCache.keys (poll_cache (snd (polls calls RekordboxPoller_init)))
    = firstn 100 (recency used) /\
    NoDup (LruCache.keys (poll_cache (snd (polls calls RekordboxPoller_init)))) /\
    (length (poll_cache (snd (polls calls RekordboxPoller_init))) <= 100)%nat /\
    (Forall (fun c => examinable (fst c)) calls -> used = map snd calls).
Proof.
  intros calls used.
  assert (E : LruCache.keys (poll_cache (snd (polls calls RekordboxPoller_init)))
              = firstn LruCache.maxsize (recency used)).
  { apply polls_keys. now destruct LruCache.maxsize. }
  split; [exact E|]. split; [|split; [|apply polls_all_return]].
  - rewrite E. pose proof (recency_NoDup used) as H.
    rewrite <- (firstn_skipn LruCache.maxsize (recency used)) in H.
    now apply NoDup_app_remove_r in H.
  - replace (length (poll_cache (snd (polls calls RekordboxPoller_init))))
      with (length (LruCache.keys
                      (poll_cache (snd (polls calls RekordboxPoller_init)))))
      by (unfold LruCache.keys; apply length_map).
    rewrite E, length_firstn. change LruCache.maxsize with 100%nat. lia.
Qed.

(** ** The loops as runs of [poll] *)

Section Events.

Local Open Scope list_scope.

Lemma polled_states_app evs evs' :
  polled_states (evs ++ evs') = polled_states evs ++ polled_states evs'.
Proof.
  induction evs as [|e evs IH]; [reflexivity|].
  destruct e; cbn [polled_states app]; now rewrite IH.
Qed.

Lemma send_payloads_app evs evs' :
  send_payloads (evs ++ evs') = send_payloads evs ++ send_payloads evs'.
Proof.
  induction evs as [|e evs IH]; [reflexivity|].
  destruct e; cbn [send_payloads app]; now rewrite IH.
Qed.

(** One cycle: the poll of its moment, then at most the send of its result. *)
Lemma _send_track_info_spec m p :
  exists out evs,
    _send_track_info m p = (out, snd (poll (world m) p (strftime (now m))), evs) /\
    polled_states evs = [fst (poll (world m) p (strftime (now m)))] /\
    send_payloads evs = somes [fst (poll (world m) p (strftime (now m)))] /\
    Forall (fun e => kind e = KPoll \/ kind e = KSend) evs.
Proof.
  assert (K : forall evs,
             Forall (fun e => is_send e = true \/ kind e = KPoll) evs ->
             Forall (fun e => kind e = KPoll \/ kind e = KSend) evs).
  { intros evs H. eapply Forall_impl; [|exact H]. intros [] [H1|H1];
      try discriminate; (now left) || (now right). }
  unfold _send_track_info.
  destruct (poll (world m) p (strftime (now m))) as [[[s|]|] p'];
    cbn [fst snd].
  - destruct (send m) as [|e].
    + eexists _, _. split; [reflexivity|]. repeat split.
      apply K. constructor; [now right|]. constructor; [now left|constructor].
    + destruct (is_ConnectionClosedOK e); eexists _, _;
        (split; [reflexivity|]); repeat split; apply K;
        (constructor; [now right|]); (constructor; [now left|constructor]).
  - eexists _, _. split; [reflexivity|]. repeat split.
    apply K. constructor; [now right|constructor].
  - eexists _, _. split; [reflexivity|]. repeat split.
    apply K. constructor; [now right|constructor].
Qed.

End Events.

(** X3.  The interval loop is a run of [poll] over its moments, as far as it
    gets: the poller it leaves and the results it polled are those of
    [polls] on the calls of the first [n] moments, the snapshots it called
    [send] with are the non-absent results among them, in that order, and
    [n] is the whole script unless an exception ended the loop. *)
Theorem wait_for_interval_runs_polls :
  forall (interval : QArith_base.Q) (script : list Moment)
         (poller : RekordboxPoller),
  exists n : nat,
    (n <= length script)%nat /\
    snd (fst (wait_for_interval interval script poller))
    = snd (polls (map call_of (firstn n script)) poller) /\
    polled_states (snd (wait_for_interval interval script poller))
    = fst (polls (map call_of (firstn n script)) poller) /\
    send_payloads (snd (wait_for_interval interval script poller))
    = somes (fst (polls (map call_of (firstn n script)) poller)) /\
    (fst (fst (wait_for_interval interval script poller)) = Awaiting ->
     n = length script).
Proof.
  intros interval script. induction script as [|m script IH]; intros poller.
  - exists 0%nat. cbn. repeat split. lia.
  - destruct (_send_track_info_spec m poller) as (out & evs & E & Hp & Hs & _).
    cbn [wait_for_interval]. rewrite E.
    set (st := fst (poll (world m) poller (strftime (now m)))) in *.
    set (p' := snd (poll (world m) poller (strftime (now m)))) in *.
    assert (Hpoll : poll (world m) poller (strftime (now m)) = (st, p'))
      by (subst st p'; now destruct (poll (world m) poller (strftime (now m)))).
    destruct out as [|e|].
    + destruct (IH p') as (n & Hn & H1 & H2 & H3 & H4).
      exists (S n).
      destruct (wait_for_interval interval script p') as [[lst p''] evs'].
      cbn [fst snd] in *. cbn [firstn map polls]. unfold call_of at 1 3 5.
      rewrite Hpoll.
      destruct (polls (map call_of (firstn n script)) p') as [rs q].
      cbn [fst snd] in *. repeat split.
      * cbn [length]. lia.
      * exact H1.
      * rewrite polled_states_app, Hp. cbn [polled_states app]. now rewrite H2.
      * rewrite send_payloads_app, Hs. cbn [send_payloads].
        rewrite H3. now destruct st as [[s|]|].
      * intros H. now rewrite (H4 H).
    + exists 1%nat. cbn [fst snd firstn map polls length]. unfold call_of.
      rewrite Hpoll. cbn [fst snd]. repeat split; try assumption;
        try (cbn [length]; lia). discriminate.
    + exists 1%nat. cbn [fst snd firstn map polls length]. unfold call_of.
      rewrite Hpoll. cbn [fst snd]. repeat split; try assumption;
        try (cbn [length]; lia). discriminate.
Qed.

Lemma wait_for_hotkey_as_polls :
  forall (script : list (bool * Moment)) (poller : RekordboxPoller),
  exists n : nat,
    (n <= length (triggered script))%nat /\
    snd (fst (wait_for_hotkey script poller))
    = snd (polls (map call_of (firstn n (triggered script))) poller) /\
    polled_states (snd (wait_for_hotkey script poller))
    = fst (polls (map call_of (firstn n (triggered script))) poller) /\
    send_payloads (snd (wait_for_hotkey script poller))
    = somes (fst (polls (map call_of (firstn n (triggered script))) poller)) /\
    (fst (fst (wait_for_hotkey script poller)) = Awaiting ->
     n = length (triggered script)).
Proof.
  intros script. induction script as [|[key m] script IH]; intros poller.
  - exists 0%nat. cbn. repeat split. lia.
  - destruct key.
    + destruct (_send_track_info_spec m poller) as (out & evs & E & Hp & Hs & _).
      cbn [wait_for_hotkey triggered]. rewrite E.
      set (st := fst (poll (world m) poller (strftime (now m)))) in *.
      set (p' := snd (poll (world m) poller (strftime (now m)))) in *.
      assert (Hpoll : poll (world m) poller (strftime (now m)) = (st, p'))
        by (subst st p'; now destruct (poll (world m) poller (strftime (now m)))).
      destruct out as [|e|].
      * destruct (IH p') as (n & Hn & H1 & H2 & H3 & H4).
        exists (S n).
        destruct (wait_for_hotkey script p') as [[lst p''] evs'].
        cbn [fst snd] in *. cbn [firstn map polls length].
        unfold call_of at 1 3 5. rewrite Hpoll.
        destruct (polls (map call_of (firstn n (triggered script))) p')
          as [rs q].
        cbn [fst snd polled_states send_payloads] in *. repeat split.
        -- cbn [length]. lia.
        -- exact H1.
        -- rewrite polled_states_app, Hp. cbn [app]. now rewrite H2.
        -- rewrite send_payloads_app, Hs, H3. now destruct st as [[s|]|].
        -- intros H. now rewrite (H4 H).
      * exists 1%nat. cbn [fst snd firstn map polls length]. unfold call_of.
        rewrite Hpoll. cbn [fst snd polled_states send_payloads].
        repeat split; try assumption; try (cbn [length]; lia). discriminate.
      * exists 1%nat. cbn [fst snd firstn map polls length]. unfold call_of.
        rewrite Hpoll. cbn [fst snd polled_states send_payloads].
        repeat split; try assumption; try (cbn [length]; lia). discriminate.
    + destruct (IH poller) as (n & Hn & H1 & H2 & H3 & H4).
      exists n. cbn [wait_for_hotkey triggered].
      destruct (wait_for_hotkey script poller) as [[lst p''] evs'].
      cbn [fst snd polled_states send_payloads] in *. now repeat split.
Qed.

(** X4.  The hotkey loop is a run of [poll] over the moments of its true queue
    items, as far as it gets; an item that is not true triggers no poll. *)
Theorem wait_for_hotkey_runs_polls :
  forall (script : list (bool * Moment)) (poller : RekordboxPoller),
  exists n : nat,
    (n <= length (triggered script))%nat /\
    snd (fst (wait_for_hotkey script poller))
    = snd (polls (map call_of (firstn n (triggered script))) poller) /\
    polled_states (snd (wait_for_hotkey script poller))
    = fst (polls (map call_of (firstn n (triggered script))) poller) /\
    send_payloads (snd (wait_for_hotkey script poller))
    = somes (fst (polls (map call_of (firstn n (triggered script))) poller)) /\
    (fst (fst (wait_for_hotkey script poller)) = Awaiting ->
     n = length (triggered script)).
Proof. exact wait_for_hotkey_as_polls. Qed.

Lemma wait_for_interval_runs_polls_witness :
  exists n : nat,
    n = 2%nat /\
    polled_states
      (snd (wait_for_interval (QArith_base.Qmake 3 1)
              [Fixture.closed_ok; Fixture.next_track] RekordboxPoller_init))
    = fst (polls (map call_of (firstn n [Fixture.closed_ok; Fixture.next_track]))
             RekordboxPoller_init).
Proof.
  destruct (wait_for_interval_runs_polls (QArith_base.Qmake 3 1)
              [Fixture.closed_ok; Fixture.next_track] RekordboxPoller_init)
    as (n & _ & _ & Hp & _ & Hn).
  exists n. split; [exact (Hn eq_refl)|exact Hp].
Defined.

Lemma wait_for_hotkey_runs_polls_witness :
  exists n : nat,
    n = 1%nat /\
    polled_states
      (snd (wait_for_hotkey [(false, Fixture.closed_ok); (true, Fixture.next_track)]
              RekordboxPoller_init))
    = fst (polls (map call_of (firstn n [Fixture.next_track]))
             RekordboxPoller_init).
Proof.
  destruct (wait_for_hotkey_runs_polls
              [(false, Fixture.closed_ok); (true, Fixture.next_track)]
              RekordboxPoller_init)
    as (n & _ & _ & Hp & _ & Hn).
  exists n. split; [exact (Hn eq_refl)|exact Hp].
Defined.

(** ** Key presses and the choice of the trigger *)

Lemma activations_repeat n : activations n = repeat true n.
Proof.
  induction n as [|n IH]; [reflexivity|].
  change (activations (S n)) with (on_activate (activations n)).
  rewrite IH. unfold on_activate. symmetry. apply repeat_cons.
Qed.

Lemma triggered_all_true ms : forall n,
  length ms = n -> triggered (combine (repeat true n) ms) = ms.
Proof.
  induction ms as [|m ms IH]; intros n H.
  - now destruct n.
  - destruct n as [|n]; [discriminate|]. cbn [repeat combine triggered].
    f_equal. apply IH. now injection H.
Qed.

Lemma wait_for_hotkey_awaiting script : forall poller,
  Forall (fun m => examinable (world m)) (triggered script) ->
  Forall (fun m => send m = Delivers \/ send m = Raises ConnectionClosedOK)
         (triggered script) ->
  fst (fst (wait_for_hotkey script poller)) = Awaiting.
Proof.
  induction script as [|[key m] script IH]; intros poller Hx H; [reflexivity|].
  cbn [wait_for_hotkey triggered] in *. destruct key.
  - inversion H as [|? ? Hm Hrest]; subst.
    inversion Hx as [|? ? Hxm Hxrest]; subst.
    destruct (_send_track_info_returns m poller Hxm Hm)
      as (b & evs & st & E & _).
    rewrite E.
    specialize (IH (snd (poll (world m) poller (strftime (now m))))
                  Hxrest Hrest).
    now destruct (wait_for_hotkey script
                    (snd (poll (world m) poller (strftime (now m)))))
      as [[lst p''] evs'].
  - specialize (IH poller Hx H).
    now destruct (wait_for_hotkey script poller) as [[lst p''] evs'].
Qed.

(** X5.  [n] presses of the hotkey put [n] true items on the queue, and the
    hotkey loop that takes them runs exactly [n] polls, one per press, in the
    order of the presses, as long as every artwork path can be examined and
    no send fails fatally; it then waits for the next item. *)
Theorem hotkey_presses_trigger_cycles :
  forall (n : nat) (ms : list Moment) (poller : RekordboxPoller),
    length ms = n ->
    Forall (fun m => examinable (world m)) ms ->
    Forall (fun m => send m = Delivers \/ send m = Raises ConnectionClosedOK) ms ->
    fst (fst (wait_for_hotkey (combine (activations n) ms) poller)) = Awaiting /\
    polled_states (snd (wait_for_hotkey (combine (activations n) ms) poller))
    = fst (polls (map call_of ms) poller) /\
    length (polled_states
              (snd (wait_for_hotkey (combine (activations n) ms) poller))) = n /\
    snd (fst (wait_for_hotkey (combine (activations n) ms) poller))
    = snd (polls (map call_of ms) poller).
Proof.
  intros n ms poller Hlen Hex Hsend. subst n. rewrite activations_repeat.
  pose proof (triggered_all_true ms (length ms) eq_refl) as Ht.
  assert (Ha : fst (fst (wait_for_hotkey
                           (combine (repeat true (length ms)) ms) poller))
               = Awaiting)
    by (apply wait_for_hotkey_awaiting; now rewrite Ht).
  destruct (wait_for_hotkey_as_polls
              (combine (repeat true (length ms)) ms) poller)
    as (k & _ & H1 & H2 & _ & Hk).
  specialize (Hk Ha). rewrite Ht in *. subst k.
  rewrite firstn_all in *. repeat split; try assumption.
  rewrite H2. clear. revert poller.
  induction ms as [|m ms IH]; intros poller; [reflexivity|].
  cbn [map polls]. unfold call_of at 1.
  destruct (poll (world m) poller (strftime (now m))) as [r p'].
  specialize (IH p'). destruct (polls (map call_of ms) p') as [rs q].
  cbn [fst length] in *. now rewrite IH.
Qed.

Lemma hotkey_presses_trigger_cycles_witness :
  length (polled_states
            (snd (wait_for_hotkey
                    (combine (activations 2)
                       [Fixture.closed_ok; Fixture.next_track])
                    RekordboxPoller_init))) = 2%nat.
Proof.
  apply (hotkey_presses_trigger_cycles 2 [Fixture.closed_ok; Fixture.next_track]
           RekordboxPoller_init eq_refl).
  - repeat constructor; intros rel; discriminate.
  - constructor; [now right|]. constructor; [now left|constructor].
Defined.

Lemma wait_for_hotkey_kinds script : forall poller,
  Forall (fun e => kind e <> KSleep) (snd (wait_for_hotkey script poller)).
Proof.
  induction script as [|[key m] script IH]; intros poller; [constructor|].
  cbn [wait_for_hotkey]. destruct key.
  - destruct (_send_track_info_spec m poller) as (out & evs & E & _ & _ & K).
    rewrite E.
    assert (K' : Forall (fun e => kind e <> KSleep) evs).
    { eapply Forall_impl; [|exact K]. intros e [H|H]; rewrite H; discriminate. }
    destruct out as [|e|].
    + specialize (IH (snd (poll (world m) poller (strftime (now m))))).
      destruct (wait_for_hotkey script
                  (snd (poll (world m) poller (strftime (now m)))))
        as [[lst p''] evs'].
      cbn [snd] in *. constructor; [discriminate|].
      apply Forall_app. now split.
    + cbn [snd]. constructor; [discriminate|exact K'].
    + cbn [snd]. constructor; [discriminate|exact K'].
  - specialize (IH poller).
    destruct (wait_for_hotkey script poller) as [[lst p''] evs'].
    cbn [snd] in *. constructor; [discriminate|exact IH].
Qed.

Lemma wait_for_interval_kinds interval script : forall poller,
  Forall (fun e => kind e <> KKey) (snd (wait_for_interval interval script poller)).
Proof.
  induction script as [|m script IH]; intros poller; [constructor|].
  cbn [wait_for_interval].
  destruct (_send_track_info_spec m poller) as (out & evs & E & _ & _ & K).
  rewrite E.
  assert (K' : Forall (fun e => kind e <> KKey) evs).
  { eapply Forall_impl; [|exact K]. intros e [H|H]; rewrite H; discriminate. }
  destruct out as [|e|]; [|exact K'|exact K'].
  specialize (IH (snd (poll (world m) poller (strftime (now m))))).
  destruct (wait_for_interval interval script
              (snd (poll (world m) poller (strftime (now m)))))
    as [[lst p''] evs'].
  cbn [snd] in *. apply Forall_app. split; [exact K'|].
  constructor; [discriminate|exact IH].
Qed.

(** X6.  The handler [main] installs uses one trigger only: in hotkey mode it
    never sleeps for the interval, whatever the interval is, and in interval
    mode it never takes an item from the key queue. *)
Theorem ws_handler_uses_one_trigger :
  forall (hotkey_mode : bool) (interval : QArith_base.Q) (c : Connection)
         (poller : RekordboxPoller),
    Forall (fun e => kind e <> (if hotkey_mode then KSleep else KKey))
           (snd (ws_handler hotkey_mode interval c poller)).
Proof.
  intros [|] interval c poller; unfold ws_handler.
  - apply wait_for_hotkey_kinds.
  - apply wait_for_interval_kinds.
Qed.

(** ** Cycles that all give the same result *)

Section Answers.

Local Open Scope list_scope.

Implicit Types (c : LruCache.t (option SongInfo)) (k : string)
               (v : option SongInfo).

Lemma get_remove_other k k' c :
  k <> k' -> LruCache.get k (LruCache.remove k' c) = LruCache.get k c.
Proof.
  intros N. induction c as [|[k0 v0] c IH]; [reflexivity|].
  cbn [LruCache.remove LruCache.get].
  destruct (String.eqb_spec k' k0) as [->|N0].
  - apply String.eqb_neq in N. now rewrite N.
  - cbn [LruCache.get]. now rewrite IH.
Qed.

Lemma get_removelast_cases k c :
  LruCache.get k (removelast c) = None \/
  LruCache.get k (removelast c) = LruCache.get k c.
Proof.
  induction c as [|[k0 v0] c IH]; [now left|].
  destruct c as [|e c]; [now left|].
  change (removelast ((k0, v0) :: e :: c)) with ((k0, v0) :: removelast (e :: c)).
  cbn [LruCache.get] in *. destruct (String.eqb k k0); [now right|exact IH].
Qed.

Lemma answers_hit K v k c :
  answers K v c -> answers K v (LruCache.hit k v c).
Proof.
  intros H k' Hk'. unfold LruCache.hit. cbn [LruCache.get].
  destruct (String.eqb_spec k' k) as [->|N]; [now right|].
  rewrite get_remove_other by exact N. now apply H.
Qed.

Lemma answers_store K v k c :
  answers K v c -> answers K v (LruCache.store k v c).
Proof.
  intros H k' Hk'. unfold LruCache.store. cbn [LruCache.get].
  destruct (String.eqb_spec k' k) as [->|N]; [now right|].
  destruct (LruCache.maxsize <=? length c)%nat; [|now apply H].
  destruct (get_removelast_cases k' c) as [E|E]; [now left|].
  rewrite E. now apply H.
Qed.

Lemma poll_constant w p k K v :
  poll_body w p = (Returns v, p) -> In k K -> answers K v (poll_cache p) ->
  fst (poll w p k) = Returns v /\
  _history (snd (poll w p k)) = _history p /\
  answers K v (poll_cache (snd (poll w p k))).
Proof.
  intros Hb Hk Ha. destruct (LruCache.get k (poll_cache p)) as [r|] eqn:G.
  - rewrite (poll_hit _ _ _ _ G). cbn [fst snd _history poll_cache].
    assert (r = v) as -> by (destruct (Ha k Hk) as [E|E]; congruence).
    repeat split. now apply answers_hit.
  - rewrite (poll_miss _ _ _ G), Hb. cbn [fst snd _history poll_cache].
    repeat split. now apply answers_store.
Qed.

End Answers.

Lemma seen_history ids p p' :
  _history p' = _history p -> seen ids p -> seen ids p'.
Proof. unfold seen. intros ->. exact (fun H => H). Qed.

Lemma wait_for_interval_silent ids interval script : forall poller,
  seen ids poller ->
  Forall (fun m => latest_ids (world m) = Some ids) script ->
  answers (map (fun m => strftime (now m)) script) None (poll_cache poller) ->
  fst (fst (wait_for_interval interval script poller)) = Awaiting /\
  send_payloads (snd (wait_for_interval interval script poller)) = [].
Proof.
  induction script as [|m script IH]; intros poller Hs Hw Ha; [now split|].
  inversion Hw as [|? ? Hm Hrest]; subst.
  destruct (poll_constant (world m) poller (strftime (now m))
              (map (fun m => strftime (now m)) (m :: script)) None
              (poll_body_unchanged _ _ _ Hm Hs) (in_eq _ _) Ha)
    as (Hr & Hh & Ha').
  pose proof (_send_track_info_absent m poller Hr) as E.
  cbn [wait_for_interval]. rewrite E.
  destruct (IH (snd (poll (world m) poller (strftime (now m)))))
    as [H1 H2]; [now apply (seen_history ids poller)|exact Hrest| |].
  { intros k Hk. apply Ha'. now right. }
  destruct (wait_for_interval interval script
              (snd (poll (world m) poller (strftime (now m)))))
    as [[lst p''] evs'].
  cbn [fst snd] in *. split; [exact H1|]. cbn [app send_payloads]. exact H2.
Qed.

Lemma wait_for_hotkey_silent ids script : forall poller,
  seen ids poller ->
  Forall (fun m => latest_ids (world m) = Some ids) (triggered script) ->
  answers (map (fun m => strftime (now m)) (triggered script)) None
          (poll_cache poller) ->
  fst (fst (wait_for_hotkey script poller)) = Awaiting /\
  send_payloads (snd (wait_for_hotkey script poller)) = [].
Proof.
  induction script as [|[key m] script IH]; intros poller Hs Hw Ha; [now split|].
  cbn [wait_for_hotkey triggered] in *. destruct key.
  - inversion Hw as [|? ? Hm Hrest]; subst.
    destruct (poll_constant (world m) poller (strftime (now m))
                (map (fun m => strftime (now m)) (m :: triggered script)) None
                (poll_body_unchanged _ _ _ Hm Hs) (in_eq _ _) Ha)
      as (Hr & Hh & Ha').
    pose proof (_send_track_info_absent m poller Hr) as E. rewrite E.
    destruct (IH (snd (poll (world m) poller (strftime (now m)))))
      as [H1 H2]; [now apply (seen_history ids poller)|exact Hrest| |].
    { intros k Hk. apply Ha'. now right. }
    destruct (wait_for_hotkey script
                (snd (poll (world m) poller (strftime (now m)))))
      as [[lst p''] evs'].
    cbn [fst snd] in *. split; [exact H1|]. cbn [app send_payloads]. exact H2.
  - destruct (IH poller Hs Hw Ha) as [H1 H2].
    destruct (wait_for_hotkey script poller) as [[lst p''] evs'].
    cbn [fst snd send_payloads] in *. now split.
Qed.

(** X7.  A handler that starts on a poller which has already seen the latest
    record sends nothing for as long as that record stays the latest: no send
    is even attempted, in either mode, so the loop keeps running.  The keys
    of its cycles are new to the cache or cached as absent.  A subscriber
    that connects after the record was detected, or after its send failed
    with a normal close, does not get it. *)
Theorem seen_record_is_never_sent :
  forall (ids : list string) (hotkey_mode : bool) (interval : QArith_base.Q)
         (c : Connection) (poller : RekordboxPoller),
    seen ids poller ->
    Forall (fun m => latest_ids (world m) = Some ids)
           (triggered (key_items c) ++ ticks c) ->
    answers (map (fun m => strftime (now m)) (triggered (key_items c) ++ ticks c))
            None (poll_cache poller) ->
    fst (fst (ws_handler hotkey_mode interval c poller)) = Awaiting /\
    send_payloads (snd (ws_handler hotkey_mode interval c poller)) = [].
Proof.
  intros ids hotkey_mode interval c poller Hs Hw Ha.
  apply Forall_app in Hw. destruct Hw as [Hk Ht].
  unfold ws_handler. destruct hotkey_mode.
  - apply wait_for_hotkey_silent with ids; [exact Hs|exact Hk|].
    intros k H. apply Ha. rewrite map_app. apply in_or_app. now left.
  - apply wait_for_interval_silent with ids; [exact Hs|exact Ht|].
    intros k H. apply Ha. rewrite map_app. apply in_or_app. now right.
Qed.

Lemma seen_record_is_never_sent_witness :
  send_payloads
    (snd (ws_handler false (QArith_base.Qmake 3 1) Fixture.new_connection
            Fixture.after_lost_send)) = [] /\
  send_payloads
    (snd (ws_handler true (QArith_base.Qmake 3 1) Fixture.new_connection
            Fixture.after_lost_send)) = [].
Proof.
  assert (Hs : seen ["1"] Fixture.after_lost_send).
  { right. exists [mkHistory (Fixture.play "1" "c1" 10) Fixture.song_a].
    split; reflexivity. }
  assert (Hw : Forall (fun m => latest_ids (world m) = Some ["1"])
                 (triggered (key_items Fixture.new_connection)
                  ++ ticks Fixture.new_connection)%list)
    by (repeat constructor).
  assert (Ha : answers
                 (map (fun m => strftime (now m))
                    (triggered (key_items Fixture.new_connection)
                     ++ ticks Fixture.new_connection)%list)
                 None (poll_cache Fixture.after_lost_send)).
  { intros k Hk. left. cbn in Hk.
    repeat (destruct Hk as [<-|Hk]; [reflexivity|]). destruct Hk. }
  split.
  - apply (seen_record_is_never_sent ["1"] false _ _ _ Hs Hw Ha).
  - apply (seen_record_is_never_sent ["1"] true _ _ _ Hs Hw Ha).
Defined.

(** ** An outage and the recovery from it *)

Section Outage.

Local Open Scope list_scope.

Lemma wait_for_interval_app interval s1 s2 : forall p,
  fst (fst (wait_for_interval interval s1 p)) = Awaiting ->
  wait_for_interval interval (s1 ++ s2) p
  = (fst (fst (wait_for_interval interval s2
                 (snd (fst (wait_for_interval interval s1 p))))),
     snd (fst (wait_for_interval interval s2
                 (snd (fst (wait_for_interval interval s1 p))))),
     snd (wait_for_interval interval s1 p)
     ++ snd (wait_for_interval interval s2
               (snd (fst (wait_for_interval interval s1 p))))).
Proof.
  induction s1 as [|m s1 IH]; intros p H.
  - cbn [app wait_for_interval fst snd].
    now destruct (wait_for_interval interval s2 p) as [[st q] evs].
  - cbn [app wait_for_interval] in *.
    destruct (_send_track_info m p) as [[[|e|] p'] evs];
      [|discriminate H|discriminate H].
    specialize (IH p').
    destruct (wait_for_interval interval s1 p') as [[st1 p1] evs1].
    cbn [fst snd] in *. rewrite (IH H).
    destruct (wait_for_interval interval s2 p1) as [[st2 p2] evs2].
    cbn [fst snd]. now rewrite <- app_assoc.
Qed.

Lemma poll_untouched w p k k' :
  k' <> k ->
  LruCache.get k' (poll_cache p) = None ->
  LruCache.get k' (poll_cache (snd (poll w p k))) = None.
Proof.
  intros N H. destruct (LruCache.get k (poll_cache p)) as [r|] eqn:G.
  - rewrite (poll_hit _ _ _ _ G). cbn [snd poll_cache]. unfold LruCache.hit.
    cbn [LruCache.get]. apply String.eqb_neq in N as N'. rewrite N'.
    now rewrite get_remove_other.
  - rewrite (poll_miss _ _ _ G).
    destruct (fst (poll_body w p)) as [r|]; cbn [snd poll_cache].
    + now apply get_store_None.
    + now rewrite poll_body_cache.
Qed.

Lemma wait_for_interval_outage interval script : forall poller,
  Forall (fun m => db (world m) = QueryRaises /\ send m = Delivers) script ->
  answers (map (fun m => strftime (now m)) script) (Some SongInfo_default)
          (poll_cache poller) ->
  fst (fst (wait_for_interval interval script poller)) = Awaiting /\
  send_payloads (snd (wait_for_interval interval script poller))
  = repeat SongInfo_default (length script) /\
  _history (snd (fst (wait_for_interval interval script poller)))
  = _history poller /\
  forall k, ~ In k (map (fun m => strftime (now m)) script) ->
            LruCache.get k (poll_cache poller) = None ->
            LruCache.get k
              (poll_cache (snd (fst (wait_for_interval interval script poller))))
            = None.
Proof.
  induction script as [|m script IH]; intros poller Hw Ha; [now repeat split|].
  inversion Hw as [|? ? [Hdb Hsend] Hrest]; subst.
  destruct (poll_constant (world m) poller (strftime (now m))
              (map (fun m => strftime (now m)) (m :: script))
              (Some SongInfo_default)
              (poll_body_raises _ _ Hdb) (in_eq _ _) Ha)
    as (Hr & Hh & Ha').
  pose proof (_send_track_info_delivers m poller SongInfo_default Hr Hsend) as E.
  cbn [wait_for_interval]. rewrite E.
  destruct (IH (snd (poll (world m) poller (strftime (now m)))))
    as (H1 & H2 & H3 & H4); [exact Hrest| |].
  { intros k Hk. apply Ha'. now right. }
  destruct (wait_for_interval interval script
              (snd (poll (world m) poller (strftime (now m)))))
    as [[lst p''] evs'].
  cbn [fst snd] in *. repeat split.
  - exact H1.
  - cbn [app send_payloads length repeat]. now rewrite H2.
  - now rewrite H3.
  - intros k Hk Hg. apply H4.
    + intros I. apply Hk. now right.
    + apply poll_untouched; [|exact Hg]. intros ->. apply Hk. now left.
Qed.

End Outage.

(** X8.  While the query raises, every cycle of the interval loop sends the
    empty snapshot, one message per cycle, and [_history] stays as it was.
    When the database answers again with the record the poller had seen
    before the outage, nothing is sent: the subscriber is left with the empty
    snapshot until another record becomes the latest.  The keys of the
    cycles are new to the cache, and no key of the outage comes back after
    it. *)
Theorem recovery_after_outage_sends_nothing :
  forall (ids : list string) (interval : QArith_base.Q)
         (outage recovered : list Moment) (poller : RekordboxPoller),
    seen ids poller ->
    Forall (fun m => db (world m) = QueryRaises /\ send m = Delivers) outage ->
    Forall (fun m => latest_ids (world m) = Some ids) recovered ->
    Forall (fun m => LruCache.get (strftime (now m)) (poll_cache poller) = None)
           (outage ++ recovered) ->
    (forall m m', In m outage -> In m' recovered ->
                  strftime (now m) <> strftime (now m')) ->
    fst (fst (wait_for_interval interval (outage ++ recovered) poller))
    = Awaiting /\
    send_payloads (snd (wait_for_interval interval (outage ++ recovered) poller))
    = repeat SongInfo_default (length outage).
Proof.
  intros ids interval outage recovered poller Hs Ho Hr Hfresh Hdisj.
  apply Forall_app in Hfresh. destruct Hfresh as [Hf1 Hf2].
  rewrite Forall_forall in Hf1, Hf2.
  destruct (wait_for_interval_outage interval outage poller Ho)
    as (H1 & H2 & H3 & H4).
  { intros k Hk. left. apply in_map_iff in Hk. destruct Hk as (m & <- & Hm).
    now apply Hf1. }
  rewrite (wait_for_interval_app interval outage recovered poller H1).
  cbn [fst snd].
  destruct (wait_for_interval_silent ids interval recovered
              (snd (fst (wait_for_interval interval outage poller))))
    as [H5 H6].
  - now apply (seen_history ids poller).
  - exact Hr.
  - intros k Hk. left. apply in_map_iff in Hk. destruct Hk as (m' & <- & Hm').
    apply H4; [|now apply Hf2].
    intros I. apply in_map_iff in I. destruct I as (m & E & Hm).
    now apply (Hdisj m m' Hm Hm').
  - split; [exact H5|]. rewrite send_payloads_app, H2, H6. apply app_nil_r.
Qed.

Lemma recovery_after_outage_sends_nothing_witness :
  send_payloads
    (snd (wait_for_interval (QArith_base.Qmake 3 1)
            [Fixture.down 3; Fixture.down 6; Fixture.still_a 9; Fixture.still_a 12]
            Fixture.seen_a))
  = [SongInfo_default; SongInfo_default].
Proof.
  refine (proj2 (recovery_after_outage_sends_nothing ["1"]
                   (QArith_base.Qmake 3 1)
                   [Fixture.down 3; Fixture.down 6]
                   [Fixture.still_a 9; Fixture.still_a 12]
                   Fixture.seen_a _ _ _ _ _)).
  - right. exists [mkHistory (Fixture.play "1" "c1" 10) Fixture.song_a].
    split; reflexivity.
  - repeat constructor.
  - repeat constructor.
  - repeat constructor.
  - intros m m' [<-|[<-|[]]] [<-|[<-|[]]]; discriminate.
Defined.

(** ** The artwork path and the encoding *)

Lemma lstrip_slash_slashes n p :
  Py.lstrip_slash (slashes n ++ p) = Py.lstrip_slash p.
Proof. induction n as [|n IH]; [reflexivity|exact IH]. Qed.

Lemma lstrip_slash_idempotent p :
  Py.lstrip_slash (Py.lstrip_slash p) = Py.lstrip_slash p.
Proof.
  induction p as [|c p IH]; [reflexivity|].
  cbn [Py.lstrip_slash]. destruct (Ascii.eqb c "/") eqn:E; [exact IH|].
  cbn [Py.lstrip_slash]. now rewrite E.
Qed.

(** X9.  Leading slashes of an artwork path do not count: however many there
    are, the same file under the share directory is read and the same data
    URI comes back, so [/PIONEER/Artwork/x.jpg] is never taken as a path from
    the root of the file system. *)
Theorem artwork_path_ignores_leading_slashes :
  forall (share_dir : ShareDir) (n : nat) (p : string),
    _load_image_as_base64_data_uri share_dir (slashes n ++ p)
    = _load_image_as_base64_data_uri share_dir p /\
    (p <> "" ->
     artwork_data_uri share_dir (Some (slashes n ++ p))
     = artwork_data_uri share_dir (Some p)).
Proof.
  intros share_dir n p.
  assert (E : _load_image_as_base64_data_uri share_dir (slashes n ++ p)
              = _load_image_as_base64_data_uri share_dir p)
    by (unfold _load_image_as_base64_data_uri; now rewrite lstrip_slash_slashes).
  split; [exact E|]. intros Hp. unfold artwork_data_uri.
  destruct p as [|c p]; [contradiction|]. cbn [Py.truthy].
  rewrite <- E. now destruct n.
Qed.

Lemma artwork_path_ignores_leading_slashes_witness :
  artwork_data_uri Fixture.one_cover (Some "///PIONEER/Artwork/cover.JPG")
  = artwork_data_uri Fixture.one_cover (Some "PIONEER/Artwork/cover.JPG").
Proof.
  apply (proj2 (artwork_path_ignores_leading_slashes Fixture.one_cover 3
                  "PIONEER/Artwork/cover.JPG")).
  discriminate.
Defined.

Section Base64.

Local Open Scope N_scope.

Lemma list_ind3 {A : Type} (P : list A -> Prop) :
  P [] -> (forall a, P [a]) -> (forall a b, P [a; b]) ->
  (forall a b c l, P l -> P (a :: b :: c :: l)) ->
  forall l, P l.
Proof.
  intros H0 H1 H2 H3. fix IH 1. intros [|a [|b [|c l]]].
  - exact H0.
  - apply H1.
  - apply H2.
  - apply H3, IH.
Qed.

Lemma alphabet_positions (n : nat) :
  (n < 64)%nat ->
  match String.get n Py.b64_alphabet with
  | Some c => b64_index c = N.of_nat n /\ c <> "="%char
  | None => False
  end.
Proof.
  intros H.
  do 64 (destruct n as [|n]; [split; [reflexivity|discriminate]|]).
  lia.
Qed.

Lemma b64_char_index x :
  b64_index (Py.b64_char x) = N.land x 63 /\ Py.b64_char x <> "="%char.
Proof.
  unfold Py.b64_char.
  assert (H : (N.to_nat (N.land x 63) < 64)%nat).
  { change 63 with (N.ones 6). rewrite N.land_ones.
    pose proof (N.mod_upper_bound x (2 ^ 6)). change (2 ^ 6) with 64 in *. lia. }
  pose proof (alphabet_positions _ H) as P.
  destruct (String.get (N.to_nat (N.land x 63)) Py.b64_alphabet) as [c|];
    [|destruct P].
  now rewrite N2Nat.id in P.
Qed.

Ltac distribute :=
  repeat first [ rewrite N.shiftr_lor | rewrite N.shiftl_lor
               | rewrite N.land_lor_distr_l ].

(** Replaces by 0 the terms that depend on the byte [x] only and vanish for
    each of its values. *)
Ltac vanish x :=
  repeat match goal with
         | |- context [?t] =>
             lazymatch type of t with N => idtac end;
             lazymatch t with 0 => fail | _ => idtac end;
             let H := fresh in
             assert (H : t = 0) by (clear; destruct x; reflexivity);
             rewrite H; clear H
         end.

Ltac by_bytes a b c :=
  unfold decode_first, decode_second, decode_third;
  rewrite !(fun x => proj1 (b64_char_index x));
  distribute; vanish a; vanish b; vanish c;
  rewrite ?N.lor_0_r, ?N.lor_0_l.

Lemma decode_first_1 a :
  let n := N.shiftl (Byte.to_N a) 16 in
  decode_first (Py.b64_char (N.shiftr n 18)) (Py.b64_char (N.shiftr n 12)) = a.
Proof.
  intros n. subst n. unfold decode_first.
  rewrite !(fun x => proj1 (b64_char_index x)). destruct a; reflexivity.
Qed.

Lemma decode_first_2 a b :
  let n := N.lor (N.shiftl (Byte.to_N a) 16) (N.shiftl (Byte.to_N b) 8) in
  decode_first (Py.b64_char (N.shiftr n 18)) (Py.b64_char (N.shiftr n 12)) = a.
Proof.
  intros n. subst n. by_bytes b b b. destruct a; reflexivity.
Qed.

Lemma decode_second_2 a b :
  let n := N.lor (N.shiftl (Byte.to_N a) 16) (N.shiftl (Byte.to_N b) 8) in
  decode_second (Py.b64_char (N.shiftr n 12)) (Py.b64_char (N.shiftr n 6)) = b.
Proof.
  intros n. subst n. by_bytes a a a. destruct b; reflexivity.
Qed.

Lemma decode_first_3 a b c :
  let n := N.lor (N.lor (N.shiftl (Byte.to_N a) 16) (N.shiftl (Byte.to_N b) 8))
                 (Byte.to_N c) in
  decode_first (Py.b64_char (N.shiftr n 18)) (Py.b64_char (N.shiftr n 12)) = a.
Proof.
  intros n. subst n. by_bytes b c c. destruct a; reflexivity.
Qed.

Lemma decode_second_3 a b c :
  let n := N.lor (N.lor (N.shiftl (Byte.to_N a) 16) (N.shiftl (Byte.to_N b) 8))
                 (Byte.to_N c) in
  decode_second (Py.b64_char (N.shiftr n 12)) (Py.b64_char (N.shiftr n 6)) = b.
Proof.
  intros n. subst n. by_bytes a c c. destruct b; reflexivity.
Qed.

Lemma decode_third_3 a b c :
  let n := N.lor (N.lor (N.shiftl (Byte.to_N a) 16) (N.shiftl (Byte.to_N b) 8))
                 (Byte.to_N c) in
  decode_third (Py.b64_char (N.shiftr n 6)) (Py.b64_char n) = c.
Proof.
  intros n. subst n. by_bytes a b b. destruct c; reflexivity.
Qed.

Lemma b64decode_b64encode data : b64decode (Py.b64encode data) = data.
Proof.
  induction data as [|a|a b|a b c l IH] using list_ind3.
  - reflexivity.
  - cbn [Py.b64encode b64decode]. cbv zeta. rewrite Ascii.eqb_refl.
    f_equal. apply decode_first_1.
  - cbn [Py.b64encode b64decode]. cbv zeta.
    match goal with
    | |- context [Ascii.eqb (Py.b64_char ?x) "="] =>
        destruct (Ascii.eqb_spec (Py.b64_char x) "=") as [E|_];
        [now apply (proj2 (b64_char_index x)) in E|]
    end.
    rewrite Ascii.eqb_refl. f_equal; [apply decode_first_2|].
    f_equal. apply decode_second_2.
  - cbn [Py.b64encode b64decode]. cbv zeta.
    repeat match goal with
    | |- context [Ascii.eqb (Py.b64_char ?x) "="] =>
        destruct (Ascii.eqb_spec (Py.b64_char x) "=") as [E|_];
        [now apply (proj2 (b64_char_index x)) in E|]
    end.
    rewrite IH. f_equal; [apply decode_first_3|].
    f_equal; [apply decode_second_3|]. f_equal. apply decode_third_3.
Qed.

Lemma b64encode_length data :
  String.length (Py.b64encode data) = (4 * ((length data + 2) / 3))%nat.
Proof.
  induction data as [|a|a b|a b c l IH] using list_ind3; try reflexivity.
  cbn [Py.b64encode String.length length]. cbv zeta.
  cbn [String.length]. rewrite IH.
  replace (S (S (S (length l))) + 2)%nat with ((length l + 2) + 1 * 3)%nat by lia.
  rewrite Nat.div_add by discriminate. lia.
Qed.

End Base64.

(** X10.  The base64 text of the artwork loses nothing: decoding it gives the
    bytes of the file back, so different files never get the same text, and
    it is four characters for every three bytes, the last group padded. *)
Theorem b64encode_is_lossless :
  forall data : list byte,
    b64decode (Py.b64encode data) = data /\
    String.length (Py.b64encode data) = (4 * ((length data + 2) / 3))%nat /\
    forall data', Py.b64encode data = Py.b64encode data' -> data = data'.
Proof.
  intros data. split; [apply b64decode_b64encode|].
  split; [apply b64encode_length|].
  intros data' E. apply (f_equal b64decode) in E.
  now rewrite !b64decode_b64encode in E.
Qed.

Lemma b64encode_is_lossless_witness :
  b64decode "/9j/4A==" = Fixture.cover_bytes.
Proof.
  change "/9j/4A==" with (Py.b64encode Fixture.cover_bytes).
  exact (proj1 (b64encode_is_lossless Fixture.cover_bytes)).
Defined.




(** ** Where snapshots come from *)

Section Provenance.

Local Open Scope list_scope.

Variable P : option SongInfo -> Prop.

Let good (e : string * option SongInfo) : Prop := P (snd e).

Lemma good_get k c r :
  Forall good c -> LruCache.get k c = Some r -> P r.
Proof.
  induction 1 as [|[k' v] c Hv _ IH]; cbn [LruCache.get]; [discriminate|].
  destruct (String.eqb k k'); [|exact IH]. intros [= <-]. exact Hv.
Qed.

Lemma good_remove k c : Forall good c -> Forall good (LruCache.remove k c).
Proof.
  induction 1 as [|[k' v] c Hv Hc IH]; cbn [LruCache.remove]; [constructor|].
  destruct (String.eqb k k'); [assumption|now constructor].
Qed.

Lemma good_removelast c : Forall good c -> Forall good (removelast c).
Proof.
  intros H. apply Forall_forall. intros e He.
  rewrite Forall_forall in H. apply H.
  destruct c as [|e0 c]; [destruct He|].
  rewrite (app_removelast_last e0 (l := e0 :: c)) by discriminate.
  apply in_or_app. now left.
Qed.

Lemma good_poll w p k :
  (forall v, fst (poll_body w p) = Returns v -> P v) ->
  Forall good (poll_cache p) ->
  (forall v, fst (poll w p k) = Returns v -> P v) /\
  Forall good (poll_cache (snd (poll w p k))).
Proof.
  intros Hb Hc. destruct (LruCache.get k (poll_cache p)) as [r|] eqn:G.
  - rewrite (poll_hit _ _ _ _ G). cbn [fst snd poll_cache].
    pose proof (good_get _ _ _ Hc G) as Hr. split; [now intros v [= <-]|].
    unfold LruCache.hit. constructor; [exact Hr|now apply good_remove].
  - rewrite (poll_miss _ _ _ G).
    destruct (fst (poll_body w p)) as [r|]; cbn [fst snd poll_cache].
    + specialize (Hb r eq_refl). split; [now intros v [= <-]|].
      unfold LruCache.store. constructor; [exact Hb|].
      destruct (LruCache.maxsize <=? length (poll_cache p))%nat;
        [now apply good_removelast|assumption].
    + split; [discriminate|]. now rewrite poll_body_cache.
Qed.

End Provenance.

Lemma last_In (rest : list History) : forall h0, In (last rest h0) (h0 :: rest).
Proof.
  induction rest as [|x rest IH]; intros h0; [now left|].
  destruct rest as [|y rest]; [right; now left|].
  change (last (x :: y :: rest) h0) with (last (y :: rest) h0).
  destruct (IH h0) as [E|I]; [now left|right; now right].
Qed.

Lemma poll_body_produced w k p calls v :
  In (w, k) calls -> fst (poll_body w p) = Returns v -> produced calls v.
Proof.
  intros I. unfold poll_body. destruct (db w) as [|d] eqn:Hdb.
  - intros [= <-]. right. exists w, k. split; [exact I|]. left. now split.
  - destruct (Query.run d) as [|h0 rest] eqn:Hq;
      [intros [= <-]; now left|].
    destruct (history_eq (_history p) (h0 :: rest));
      [intros [= <-]; now left|].
    cbn [fst]. unfold snapshot_of.
    destruct (build_SongInfo d (share w) (last rest h0)) as [s|] eqn:B;
      [|discriminate].
    intros [= <-]. right. exists w, k. split; [exact I|]. right.
    exists d, (last rest h0), s. rewrite Hq.
    split; [exact Hdb|]. split; [apply last_In|]. now split.
Qed.

Lemma polls_produced all calls : forall p,
  incl calls all ->
  Forall (fun e => produced all (snd e)) (poll_cache p) ->
  Forall (fun r => forall v, r = Returns v -> produced all v)
         (fst (polls calls p)).
Proof.
  induction calls as [|[w k] calls IH]; intros p Hi Hc; [constructor|].
  destruct (good_poll (produced all) w p k) as [Hr Hc'].
  - intros v. apply poll_body_produced with k. apply Hi. now left.
  - exact Hc.
  - cbn [polls]. destruct (poll w p k) as [r p']. cbn [fst snd] in *.
    specialize (IH p' (fun x Hx => Hi x (or_intror Hx)) Hc').
    destruct (polls calls p') as [rs q]. cbn [fst] in *. now constructor.
Qed.

(** X12.  A poller never makes a snapshot up.  Whatever calls a new poller
    serves, each result a call returns is absent, or the empty snapshot of a
    call of the run whose query raised, or the snapshot of a row that the
    query of a call of the run returned, built from the database and the
    files of that call; this holds for the results the cache hands out
    too. *)
Theorem poll_results_come_from_the_store :
  forall calls : list (World * string),
    Forall (fun r => forall v, r = Returns v -> produced calls v)
           (fst (polls calls RekordboxPoller_init)).
Proof.
  intros calls. apply polls_produced; [apply incl_refl|constructor].
Qed.

(** ** No second attempt *)

(** X13.  The cycle that detects a record is the only one that sends it.  Once a
    cycle has run its query and fetched the record, whatever became of it
    (snapshot delivered, peer closed, any other failure of the send, or the
    artwork load raising), no handler started afterwards on the same poller,
    in either mode, attempts a send while that record stays the latest: a
    snapshot whose send failed is not sent again.  The later cycles use keys
    of their own. *)
Theorem detected_record_is_sent_at_most_once :
  forall (ids : list string) (m : Moment) (poller : RekordboxPoller)
         (hotkey_mode : bool) (interval : QArith_base.Q) (c : Connection),
    latest_ids (world m) = Some ids ->
    LruCache.get (strftime (now m)) (poll_cache poller) = None ->
    Forall (fun m' =>
              latest_ids (world m') = Some ids /\
              strftime (now m') <> strftime (now m) /\
              LruCache.get (strftime (now m')) (poll_cache poller) = None)
           (triggered (key_items c) ++ ticks c) ->
    fst (fst (ws_handler hotkey_mode interval c
                (snd (fst (_send_track_info m poller))))) = Awaiting /\
    send_payloads
      (snd (ws_handler hotkey_mode interval c
              (snd (fst (_send_track_info m poller))))) = [].
Proof.
  intros ids m poller hotkey_mode interval c Hm G Hlater.
  destruct (_send_track_info_spec m poller) as (out & evs & E & _).
  rewrite E. cbn [fst snd].
  set (p' := snd (poll (world m) poller (strftime (now m)))).
  assert (Hs : seen ids p') by (subst p'; now apply poll_miss_seen).
  rewrite Forall_forall in Hlater.
  assert (Hw : forall l, incl l (triggered (key_items c) ++ ticks c)%list ->
               Forall (fun m' => latest_ids (world m') = Some ids) l /\
               answers (map (fun m' => strftime (now m')) l) None (poll_cache p')).
  { intros l Hl. split.
    - apply Forall_forall. intros m' Hm'. now apply Hlater, Hl.
    - intros k Hk. left. apply in_map_iff in Hk. destruct Hk as (m' & <- & Hm').
      destruct (Hlater m' (Hl m' Hm')) as (_ & N & G').
      subst p'. now apply poll_untouched. }
  unfold ws_handler. destruct hotkey_mode.
  - destruct (Hw (triggered (key_items c))) as [H1 H2];
      [intros x Hx; apply in_or_app; now left|].
    now apply wait_for_hotkey_silent with ids.
  - destruct (Hw (ticks c)) as [H1 H2];
      [intros x Hx; apply in_or_app; now right|].
    now apply wait_for_interval_silent with ids.
Qed.

Lemma detected_record_is_sent_at_most_once_witness :
  send_payloads
    (snd (ws_handler false (QArith_base.Qmake 3 1) Fixture.new_connection
            (snd (fst (_send_track_info Fixture.closed_error
                         RekordboxPoller_init))))) = [].
Proof.
  refine (proj2 (detected_record_is_sent_at_most_once ["1"] Fixture.closed_error
                   RekordboxPoller_init false (QArith_base.Qmake 3 1)
                   Fixture.new_connection eq_refl eq_refl _)).
  repeat (constructor; [repeat split; discriminate|]). constructor.
Defined.

(** ** An artwork path that cannot be examined *)

Lemma artwork_data_uri_raises share_dir o :
  artwork_data_uri share_dir o = RaisesOSError <->
  exists ref, o = Some ref /\ ref <> "" /\
              is_file (share_dir (Py.lstrip_slash ref)) = StatError.
Proof.
  unfold artwork_data_uri. split.
  - destruct o as [[|c ref]|]; cbn [Py.truthy]; try discriminate.
    unfold _load_image_as_base64_data_uri.
    destruct (is_file (share_dir (Py.lstrip_slash (String c ref))))
      as [|b] eqn:E.
    + intros _. exists (String c ref). repeat split; [discriminate|exact E].
    + destruct (negb b); [discriminate|].
      destruct (read_bytes (share_dir (Py.lstrip_slash (String c ref))));
        discriminate.
  - intros (ref & -> & Hne & Hf). destruct ref as [|c ref]; [contradiction|].
    cbn [Py.truthy]. unfold _load_image_as_base64_data_uri. now rewrite Hf.
Qed.

Lemma poll_body_raises_iff w p :
  fst (poll_body w p) = RaisesOSError <->
  exists d h0 rest ref,
    db w = Serves d /\ Query.run d = h0 :: rest /\
    history_eq (_history p) (h0 :: rest) = false /\
    DjmdContent.ImagePath (Content (last rest h0)) = Some ref /\
    ref <> "" /\
    is_file (share w (Py.lstrip_slash ref)) = StatError.
Proof.
  unfold poll_body. split.
  - destruct (db w) as [|d]; [discriminate|].
    destruct (Query.run d) as [|h0 rest] eqn:Q; [discriminate|].
    destruct (history_eq (_history p) (h0 :: rest)) eqn:H; [discriminate|].
    cbn [fst]. unfold snapshot_of, build_SongInfo.
    destruct (artwork_data_uri (share w)
                (DjmdContent.ImagePath (Content (last rest h0)))) eqn:A;
      [discriminate|].
    intros _. apply artwork_data_uri_raises in A.
    destruct A as (ref & Hi & Hne & Hf). exists d, h0, rest, ref.
    repeat split; assumption.
  - intros (d & h0 & rest & ref & -> & -> & -> & Hi & Hne & Hf).
    cbn [fst]. unfold snapshot_of, build_SongInfo.
    assert (A : artwork_data_uri (share w)
                  (DjmdContent.ImagePath (Content (last rest h0)))
                = RaisesOSError)
      by (apply artwork_data_uri_raises; now exists ref).
    now rewrite A.
Qed.

Lemma poll_body_raised_state w p :
  fst (poll_body w p) = RaisesOSError ->
  exists d, db w = Serves d /\
            snd (poll_body w p) = mkPoller (Some (Query.run d)) (poll_cache p).
Proof.
  unfold poll_body. destruct (db w) as [|d]; [discriminate|].
  destruct (Query.run d) as [|h0 rest] eqn:Q; [discriminate|].
  destruct (history_eq (_history p) (h0 :: rest)); [discriminate|].
  intros _. exists d. rewrite Q. split; reflexivity.
Qed.

(** X15.  When [poll] raises.  A call raises exactly when its key is not
    cached, its query returns a record that differs from [_history], the
    content of that record has a non-empty [ImagePath], and [is_file] raises
    on the path it resolves to.  The call has then stored the query result
    in [_history] and left the cache as it was: the record counts as seen
    though no snapshot of it was returned. *)
Theorem poll_raises_on_unexaminable_artwork :
  forall (w : World) (p : RekordboxPoller) (k : string),
    (fst (poll w p k) = RaisesOSError <->
     LruCache.get k (poll_cache p) = None /\
     exists d h0 rest ref,
       db w = Serves d /\ Query.run d = h0 :: rest /\
       history_eq (_history p) (h0 :: rest) = false /\
       DjmdContent.ImagePath (Content (last rest h0)) = Some ref /\
       ref <> "" /\
       is_file (share w (Py.lstrip_slash ref)) = StatError) /\
    (fst (poll w p k) = RaisesOSError ->
     exists d, db w = Serves d /\
       snd (poll w p k) = mkPoller (Some (Query.run d)) (poll_cache p)).
Proof.
  intros w p k. destruct (LruCache.get k (poll_cache p)) as [r|] eqn:G.
  - rewrite (poll_hit _ _ _ _ G). cbn [fst snd]. split; [split|]; try discriminate.
    intros [H _]. discriminate H.
  - rewrite (poll_miss _ _ _ G).
    pose proof (poll_body_raises_iff w p) as I.
    pose proof (poll_body_raised_state w p) as S.
    destruct (fst (poll_body w p)) as [r|]; cbn [fst snd].
    + split; [split|]; try discriminate.
      intros [_ H]. apply I in H. discriminate H.
    + split; [split|].
      * intros _. split; [reflexivity|]. now apply I.
      * reflexivity.
      * intros _. exact (S eq_refl).
Qed.

Lemma poll_raises_on_unexaminable_artwork_witness :
  fst (poll (mkWorld (Serves Fixture.store_c) Fixture.hidden_cover)
         RekordboxPoller_init "2024-05-17 21:30:00") = RaisesOSError.
Proof.
  apply (proj1 (poll_raises_on_unexaminable_artwork
                  (mkWorld (Serves Fixture.store_c) Fixture.hidden_cover)
                  RekordboxPoller_init "2024-05-17 21:30:00")).
  split; [reflexivity|].
  exists Fixture.store_c, (mkHistory (Fixture.play "4" "c3" 40) Fixture.song_c),
    [], "/PIONEER/Artwork/cover.JPG".
  repeat split. discriminate.
Defined.

(** X16.  Nothing between [poll] and the event loop catches its exception:
    when the poll of a cycle raises, [_send_track_info] sends nothing and
    raises, and either loop ends there, whatever its script still holds,
    leaving the poller as that poll left it. *)
Theorem poll_failure_ends_the_loop :
  forall (m : Moment) (poller : RekordboxPoller),
    fst (poll (world m) poller (strftime (now m))) = RaisesOSError ->
    let poller' := snd (poll (world m) poller (strftime (now m))) in
    let evs := [PollRaised (strftime (now m))] in
    _send_track_info m poller = (RaisedOSError, poller', evs) /\
    (forall rest : list (bool * Moment),
        wait_for_hotkey ((true, m) :: rest) poller
        = (CrashedOSError, poller', GotKey true :: evs)) /\
    (forall (interval : QArith_base.Q) (rest : list Moment),
        wait_for_interval interval (m :: rest) poller
        = (CrashedOSError, poller', evs)).
Proof.
  intros m poller H poller' evs.
  pose proof (_send_track_info_poll_raises m poller H) as E.
  split; [exact E|]. split.
  - intros rest. cbn [wait_for_hotkey]. now rewrite E.
  - intros interval rest. cbn [wait_for_interval]. now rewrite E.
Qed.

Lemma poll_failure_ends_the_loop_witness :
  fst (fst (wait_for_interval (QArith_base.Qmake 3 1)
              [mkMoment (Fixture.at_second 0)
                 (mkWorld (Serves Fixture.store_c) Fixture.hidden_cover)
                 Delivers;
               Fixture.next_track]
              RekordboxPoller_init)) = CrashedOSError.
Proof.
  destruct (poll_failure_ends_the_loop
              (mkMoment (Fixture.at_second 0)
                 (mkWorld (Serves Fixture.store_c) Fixture.hidden_cover)
                 Delivers)
              RekordboxPoller_init eq_refl) as (_ & _ & H).
  now rewrite H.
Defined.
